(** * AI-IDS: packet window, feature engineering and model bundles

    A shallow embedding of [packet_processor.py] and [anomaly_detector.py]
    together with the properties their specification states about them.

    Python exceptions are values of [exn]; a call that may raise returns a
    [result], together with the state it leaves behind where the claims
    look at it.  Dictionaries are [gmap]s, or association lists where the
    order of the entries is part of the data; Python lists that are updated
    by index are lists with stdpp's lookup and insert, with the [IndexError]
    of an out-of-range access written out. *)

From Stdlib Require Import ZArith QArith Lia.
From Stdlib Require Import Lqa.
From stdpp Require Import base tactics option list gmap strings fin_maps pretty sorting.

Local Open Scope Z_scope.
Local Open Scope nat_scope.

(** ** Exceptions and the error monad

    The exceptions are the subclasses of [Exception] that the two modules
    meet; [SecurityError] is the detector's own. *)

Inductive exn : Type :=
| IndexError (msg : string)
| ZeroDivisionError
| KeyError (key : string)
| ValueError (msg : string)
| TypeError (msg : string)
| FileNotFoundError (msg : string)
| FileExistsError (msg : string)
| NotADirectoryError (msg : string)
| OSError (msg : string)
| OverflowError (msg : string)
| UnpicklingError (msg : string)
| ImportError (msg : string)
| RuntimeError (msg : string)
| SecurityError (msg : string).

Inductive result (T : Type) : Type :=
| Ok (v : T)
| Raise (e : exn).
Arguments Ok {T} v.
Arguments Raise {T} e.

#[global] Instance result_ret : MRet result := fun _ v => Ok v.
#[global] Instance result_bind : MBind result := fun _ _ k c =>
  match c with
  | Ok v => k v
  | Raise e => Raise e
  end.

#[global] Instance result_fmap : FMap result := fun _ _ f c =>
  match c with
  | Ok v => Ok (f v)
  | Raise e => Raise e
  end.

(** [for x in xs: st = body(st, x)], stopping at the first exception. *)
Fixpoint for_each {S X : Type} (body : S -> X -> result S) (xs : list X) (st : S)
  : result S :=
  match xs with
  | [] => Ok st
  | x :: rest => st' ← body st x; for_each body rest st'
  end.

(** [[f(i) for i in ...]], stopping at the first exception. *)
Fixpoint collect {X Y : Type} (f : X -> result Y) (xs : list X) : result (list Y) :=
  match xs with
  | [] => Ok []
  | x :: rest => y ← f x; ys ← collect f rest; Ok (y :: ys)
  end.

(** Python's [a % b] on non-negative operands. *)
Definition py_mod (a b : nat) : result nat :=
  if decide (b = 0) then Raise ZeroDivisionError else Ok (a mod b).

(** [lst[i]] and [lst[i] = x] on a Python list, for [i >= 0]. *)
Definition getitem {X : Type} (lst : list X) (i : nat) : result X :=
  match lst !! i with
  | Some x => Ok x
  | None => Raise (IndexError "list index out of range")
  end.

Definition setitem {X : Type} (lst : list X) (i : nat) (x : X) : result (list X) :=
  if decide (i < length lst) then Ok (<[i := x]> lst)
  else Raise (IndexError "list assignment index out of range").

(** The newest [n] elements of a list, in their order: what [lst[-n:]] is
    for [n >= 1]. *)
Definition newest {X : Type} (n : nat) (l : list X) : list X :=
  drop (length l - n) l.

(** ** [PacketWindow]: the ring buffer of packet_processor.py *)

Module PacketWindow.
Section Window.
Context {A : Type}.
(** The filler of unused slots ([None] in [[None] * capacity]). *)
Variable py_None : A.

Record t : Type := mk {
  _buffer : list A;
  _capacity : nat;
  _start : nat;
  _count : nat
}.

(** [__init__]: [capacity = max(0, int(capacity))]. *)
Definition init (capacity : Z) : t :=
  let cap := Z.to_nat (Z.max 0 capacity) in
  {| _buffer := replicate cap py_None; _capacity := cap; _start := 0; _count := 0 |}.

Definition maxlen (w : t) : nat := _capacity w.

Definition len (w : t) : nat := _count w.

Definition append (w : t) (item : A) : result t :=
  if decide (_capacity w = 0) then Ok w
  else if decide (_count w < _capacity w) then
    let idx := (_start w + _count w) mod _capacity w in
    buf ← setitem (_buffer w) idx item;
    Ok {| _buffer := buf; _capacity := _capacity w;
          _start := _start w; _count := _count w + 1 |}
  else
    buf ← setitem (_buffer w) (_start w) item;
    Ok {| _buffer := buf; _capacity := _capacity w;
          _start := (_start w + 1) mod _capacity w; _count := _count w |}.

Definition popleft (w : t) : result (A * t) :=
  if decide (_count w = 0) then Raise (IndexError "pop from an empty PacketWindow")
  else
    item ← getitem (_buffer w) (_start w);
    start ← py_mod (_start w + 1) (_capacity w);
    Ok (item, {| _buffer := _buffer w; _capacity := _capacity w;
                 _start := start; _count := _count w - 1 |}).

Definition clear (w : t) : t :=
  {| _buffer := _buffer w; _capacity := _capacity w; _start := 0; _count := 0 |}.

Definition extend (w : t) (records : list A) : result t :=
  for_each append records w.

(** [__iter__] run to the end, which is what [to_list] does. *)
Definition to_list (w : t) : result (list A) :=
  collect (fun i => idx ← py_mod (_start w + i) (_capacity w);
                    getitem (_buffer w) idx)
          (seq 0 (_count w)).

(** *** The ring invariant and the list a window stands for *)

Definition wf (w : t) : Prop :=
  length (_buffer w) = _capacity w /\
  _count w <= _capacity w /\
  (0 < _capacity w -> _start w < _capacity w).

Definition holds (w : t) (l : list A) : Prop :=
  length l = _count w /\
  forall i x, l !! i = Some x ->
              _buffer w !! ((_start w + i) mod _capacity w) = Some x.

(** *** Calls on a window, and the bounded queue they are compared with *)

Inductive op : Type :=
| Append (item : A)
| Popleft
| Clear
| Extend (records : list A).

(** One call on the window; the output is what [popleft] returns. *)
Definition call (w : t) (o : op) : result (option A * t) :=
  match o with
  | Append item => w' ← append w item; Ok (None, w')
  | Popleft => r ← popleft w; Ok (Some (fst r), snd r)
  | Clear => Ok (None, clear w)
  | Extend records => w' ← extend w records; Ok (None, w')
  end.

(** A sequence of calls, stopping at the first one that raises. *)
Fixpoint calls (w : t) (os : list op) : result (list (option A) * t) :=
  match os with
  | [] => Ok ([], w)
  | o :: rest =>
      r ← call w o;
      r' ← calls (snd r) rest;
      Ok (fst r :: fst r', snd r')
  end.

(** The same call on a queue that keeps the newest [cap] of its items. *)
Definition queue_call (cap : nat) (l : list A) (o : op) : result (option A * list A) :=
  match o with
  | Append item => Ok (None, newest cap (l ++ [item]))
  | Popleft =>
      match l with
      | [] => Raise (IndexError "pop from an empty PacketWindow")
      | x :: rest => Ok (Some x, rest)
      end
  | Clear => Ok (None, [])
  | Extend records => Ok (None, newest cap (l ++ records))
  end.

Fixpoint queue_calls (cap : nat) (l : list A) (os : list op)
  : result (list (option A) * list A) :=
  match os with
  | [] => Ok ([], l)
  | o :: rest =>
      r ← queue_call cap l o;
      r' ← queue_calls cap (snd r) rest;
      Ok (fst r :: fst r', snd r')
  end.

End Window.
Arguments t A : clear implicits.
Arguments op A : clear implicits.
End PacketWindow.

(** ** Floating-point values

    A [float] is NaN, an infinity or a finite value.  Finite values are exact
    rationals, and [sub] and the comparisons are the exact ones: they are
    what binary64 arithmetic gives wherever the exact result is a binary64
    number, which is so for the timestamps of [on_grid].  The conversion of
    a Python int, [of_pyint], is the binary64 one: it rounds to 53 bits, ties
    to even, and raises [OverflowError] beyond the largest float.  [log1p] on
    a finite argument above -1 is taken from the environment
    ([log1p_finite]), as are the conversions between strings and numbers. *)

Module Float.

Inductive float : Type :=
| NaN
| PosInf
| NegInf
| Fin (q : Q).

Definition of_int (z : Z) : float := Fin (inject_Z z).

Definition of_nat (n : nat) : float := of_int (Z.of_nat n).

(** The integer nearest to [z] that has at most 53 significant bits, ties
    going to the even one. *)
Definition round53 (z : Z) : Z :=
  let a := Z.abs z in
  let e := (Z.log2 a - 52)%Z in
  if (e <=? 0)%Z then z
  else
    let q := Z.shiftr a e in
    let r := Z.land a (Z.ones e) in
    let half := Z.shiftl 1 (e - 1) in
    let q := if (half <? r)%Z || ((r =? half)%Z && Z.odd q) then (q + 1)%Z else q in
    (Z.sgn z * Z.shiftl q e)%Z.

(** [z] converts to a float: its nearest binary64 number is finite. *)
Definition fits (z : Z) : bool := (Z.abs (round53 z) <? 2 ^ 1024)%Z.

(** [z] converts to a float without rounding. *)
Definition exact (z : Z) : bool := (Z.abs z <? 2 ^ 53)%Z.

(** [float(z)] for a Python int [z]. *)
Definition of_pyint (z : Z) : result float :=
  if fits z then Ok (of_int (round53 z))
  else Raise (OverflowError "int too large to convert to float").

Definition zero : float := Fin 0.
Definition one : float := Fin 1.

Definition isnan (x : float) : bool :=
  match x with NaN => true | _ => false end.

Definition isinf (x : float) : bool :=
  match x with PosInf | NegInf => true | _ => false end.

Definition isfinite (x : float) : bool :=
  match x with Fin _ => true | _ => false end.

Definition Qltb (a b : Q) : bool := negb (Qle_bool b a).

(** [a < b]: false as soon as one side is NaN. *)
Definition ltb (a b : float) : bool :=
  match a, b with
  | NaN, _ | _, NaN => false
  | _, NegInf => false
  | PosInf, _ => false
  | NegInf, _ => true
  | Fin _, PosInf => true
  | Fin x, Fin y => Qltb x y
  end.

(** [a <= b]. *)
Definition leb (a b : float) : bool :=
  match a, b with
  | NaN, _ | _, NaN => false
  | NegInf, _ => true
  | _, PosInf => true
  | _, NegInf => false
  | PosInf, _ => false
  | Fin x, Fin y => Qle_bool x y
  end.

(** [a >= b]. *)
Definition geb (a b : float) : bool := leb b a.

(** [a - b]. *)
Definition sub (a b : float) : float :=
  match a, b with
  | NaN, _ | _, NaN => NaN
  | PosInf, PosInf | NegInf, NegInf => NaN
  | PosInf, _ => PosInf
  | NegInf, _ => NegInf
  | Fin _, PosInf => NegInf
  | Fin _, NegInf => PosInf
  | Fin x, Fin y => Fin (Qred (x - y))
  end.

(** [math.log1p] and [numpy.log1p] agree except at and below -1, where the
    first raises [ValueError] and the second yields [-inf] and NaN. *)
Definition np_log1p (log1p_finite : Q -> Q) (x : float) : float :=
  match x with
  | NaN => NaN
  | PosInf => PosInf
  | NegInf => NaN
  | Fin q =>
      if Qltb (-1) q then Fin (log1p_finite q)
      else if Qeq_bool q (-1) then NegInf
      else NaN
  end.

Definition math_log1p (log1p_finite : Q -> Q) (x : float) : result float :=
  match x with
  | NaN => Ok NaN
  | PosInf => Ok PosInf
  | NegInf => Raise (ValueError "math domain error")
  | Fin q =>
      if Qltb (-1) q then Ok (Fin (log1p_finite q))
      else Raise (ValueError "math domain error")
  end.

(** [numpy.nan_to_num(x, nan=0.0, posinf=0.0, neginf=0.0)] on one entry. *)
Definition nan_to_num (x : float) : float :=
  match x with
  | Fin q => Fin q
  | _ => zero
  end.

(** [int(x)]: truncation toward zero. *)
Definition to_int (x : float) : result Z :=
  match x with
  | NaN => Raise (ValueError "cannot convert float NaN to integer")
  | PosInf | NegInf => Raise (OverflowError "cannot convert float infinity to integer")
  | Fin q => Ok (Z.quot (Qnum q) (Z.pos (Qden q)))
  end.

(** Truthiness of a float: zero is false, NaN is true. *)
Definition truthy (x : float) : bool :=
  match x with
  | Fin q => negb (Qeq_bool q 0)
  | _ => true
  end.

(** The binary64 numbers below 2^53 in magnitude: [m / 2^k] with a 53-bit
    [m] and [k] within the exponent range. *)
Definition dyadic53 (q : Q) : Prop :=
  exists (m : Z) (k : nat),
    (Z.abs m < 2 ^ 53)%Z /\ k <= 1074 /\ q == inject_Z m / inject_Z (2 ^ Z.of_nat k).

(** A timestamp on the grid of step [2^-k]: a non-negative binary64 number
    [z / 2^k] with [z < 2^53].  Wall-clock seconds as [time.time()] returns
    them are on the grid of [k = 22] until 2038.  The difference of two
    numbers of one grid, the larger first, is a binary64 number, and so is
    [x - 15] for [k <= 49]: on a grid the exact [sub] is the binary64 one. *)
Definition on_grid (k : nat) (x : float) : Prop :=
  exists (z : Z) (q : Q),
    (0 <= z < 2 ^ 53)%Z /\ x = Fin q /\ q == inject_Z z / inject_Z (2 ^ Z.of_nat k).

End Float.

Abbreviation float := Float.float.
(** ** [PacketRecord] and [PacketProcessor] (packet_processor.py) *)

Record PacketRecord : Type := mkRecord {
  timestamp : float;
  src_ip : string;
  dest_ip : string;
  protocol : Z;
  packet_size : Z;
  sport : Z;
  dport : Z
}.

(** The values a packet-like mapping carries. *)
Inductive pyval : Type :=
| VNone
| VInt (z : Z)
| VFloat (x : float)
| VStr (s : string).

(** [PacketRecord.as_dict]. *)
Definition as_dict (r : PacketRecord) : gmap string pyval :=
  list_to_map [("timestamp", VFloat (timestamp r)); ("src_ip", VStr (src_ip r));
               ("dest_ip", VStr (dest_ip r)); ("protocol", VInt (protocol r));
               ("packet_size", VInt (packet_size r)); ("sport", VInt (sport r));
               ("dport", VInt (dport r))].

(** Library functions the model takes from the environment: [log1p] on
    finite arguments above -1, and the conversions [float(str)], [int(str)]
    and [str(float)]. *)
Record builtins : Type := mkBuiltins {
  log1p_finite : Q -> Q;
  float_of_str : string -> option float;
  int_of_str : string -> option Z;
  str_of_float : float -> string
}.

(** The seven engineered features, in the order of [FEATURES]. *)
Record FeatureVector : Type := mkFeatures {
  f_protocol : float;
  f_packet_size_log : float;
  f_time_diff : float;
  f_dport : float;
  f_is_ephemeral_sport : float;
  f_unique_dports_15s : float;
  f_direction : float
}.

(** A row of the processed view: the record and the columns added to it. *)
Record ProcessedRow : Type := mkRow {
  row_record : PacketRecord;
  row_time_diff : float;
  row_packet_size_log : float;
  row_is_ephemeral_sport : float;
  row_unique_dports_15s : float;
  row_direction : float
}.

(** [l[i:]] and [l[:j]] for any integer bound. *)
Definition slice_from {X : Type} (i : Z) (l : list X) : list X :=
  if decide (i < 0)%Z then drop (Z.to_nat (Z.max 0 (Z.of_nat (length l) + i))) l
  else drop (Z.to_nat i) l.

Definition slice_to {X : Type} (j : Z) (l : list X) : list X :=
  if decide (j < 0)%Z then take (Z.to_nat (Z.max 0 (Z.of_nat (length l) + j))) l
  else take (Z.to_nat j) l.

Module PacketProcessor.

Definition fresh_record : PacketRecord :=
  mkRecord Float.zero "" "" 0 0 0 0.

Record t : Type := mk {
  _local_ips : gset string;
  _window_size : Z;
  packet_data : PacketWindow.t (option PacketRecord);
  _record_pool : list PacketRecord;
  _last_timestamp : option float;
  _active_ports : gmap string (gmap Z float)
}.

(** [__init__]; the addresses [_gather_local_ips] finds are an argument. *)
Definition init (local_ips : gset string) (window_size : Z) : t :=
  {| _local_ips := local_ips;
     _window_size := window_size;
     packet_data := PacketWindow.init None window_size;
     _record_pool := replicate (Z.to_nat window_size) fresh_record;
     _last_timestamp := None;
     _active_ports := ∅ |}.

Definition window_size (p : t) : Z := _window_size p.

(** The processor keeps its window as large as [_window_size] says. *)
Definition window_consistent (p : t) : Prop :=
  PacketWindow.wf (packet_data p) /\
  PacketWindow.maxlen (packet_data p) = Z.to_nat (Z.max 0 (_window_size p)).

(** The [PacketRecord] entries among [entries], in order. *)
Definition records_of (entries : list (option PacketRecord)) : list PacketRecord :=
  omap id entries.

Definition set_window_size (p : t) (new_size : Z) : result t :=
  let new_size := Z.max 1 new_size in
  if decide (new_size = _window_size p) then Ok p
  else
    current ← PacketWindow.to_list (packet_data p);
    let recent := slice_from (- new_size) current in
    let trimmed := slice_to (- new_size) current in
    window ← PacketWindow.extend (PacketWindow.init None new_size) recent;
    let pool := _record_pool p ++ records_of trimmed in
    let pool_target := Z.to_nat (Z.max 0 (new_size - Z.of_nat (PacketWindow.len window))) in
    let pool :=
      if decide (length pool < pool_target)
      then pool ++ replicate (pool_target - length pool) fresh_record
      else if decide (pool_target < length pool) then take pool_target pool
      else pool in
    Ok {| _local_ips := _local_ips p;
          _window_size := new_size;
          packet_data := window;
          _record_pool := pool;
          _last_timestamp := _last_timestamp p;
          _active_ports := _active_ports p |}.

(** [_records_to_frame]: an entry that is not a record goes through
    [dict(entry)], which raises on the filler [None]. *)
Definition _records_to_frame (records : list (option PacketRecord))
  : result (list PacketRecord) :=
  collect (fun entry => match entry with
                        | Some r => Ok r
                        | None => Raise (TypeError "'NoneType' object is not iterable")
                        end) records.

Definition get_dataframe (p : t) : result (list PacketRecord) :=
  if decide (PacketWindow.len (packet_data p) = 0) then Ok []
  else entries ← PacketWindow.to_list (packet_data p); _records_to_frame entries.

(** *** Coercions of [extract_features] *)

Definition truthy (v : pyval) : bool :=
  match v with
  | VNone => false
  | VInt z => negb (z =? 0)%Z
  | VFloat x => Float.truthy x
  | VStr s => negb (String.eqb s "")
  end.

Definition py_float (B : builtins) (v : pyval) : result float :=
  match v with
  | VNone => Raise (TypeError "float() argument must be a string or a real number")
  | VInt z => Float.of_pyint z
  | VFloat x => Ok x
  | VStr s => match float_of_str B s with
              | Some x => Ok x
              | None => Raise (ValueError "could not convert string to float")
              end
  end.

Definition py_int (B : builtins) (v : pyval) : result Z :=
  match v with
  | VNone => Raise (TypeError "int() argument must be a string or a real number")
  | VInt z => Ok z
  | VFloat x => Float.to_int x
  | VStr s => match int_of_str B s with
              | Some z => Ok z
              | None => Raise (ValueError "invalid literal for int()")
              end
  end.

Definition py_str (B : builtins) (v : pyval) : string :=
  match v with
  | VNone => "None"
  | VInt z => pretty z
  | VFloat x => str_of_float B x
  | VStr s => s
  end.

(** [d.get(k)] and [d.get(k, default)]. *)
Definition get (d : gmap string pyval) (k : string) : pyval :=
  default VNone (d !! k).

Definition get_or (d : gmap string pyval) (k : string) (dflt : pyval) : pyval :=
  default dflt (d !! k).

(** [a or b]. *)
Definition py_or (a b : pyval) : pyval := if truthy a then a else b.

Definition ascii_lower (c : Ascii.ascii) : Ascii.ascii :=
  let n := Ascii.nat_of_ascii c in
  if decide (65 <= n <= 90) then Ascii.ascii_of_nat (n + 32) else c.

Fixpoint lower (s : string) : string :=
  match s with
  | EmptyString => EmptyString
  | String c rest => String (ascii_lower c) (lower rest)
  end.

(** [{"tcp": 6, "udp": 17, "icmp": 1}.get(proto.lower(), 0)]. *)
Definition protocol_of_name (s : string) : Z :=
  let l := lower s in
  if String.eqb l "tcp" then 6
  else if String.eqb l "udp" then 17
  else if String.eqb l "icmp" then 1
  else 0.

(** *** The per-source port-recency table *)

Definition _update_unique_dports (active_ports : gmap string (gmap Z float))
    (timestamp : float) (src_ip : string) (dport : Z)
  : nat * gmap string (gmap Z float) :=
  let cutoff := Float.sub timestamp (Float.of_int 15) in
  (* ports = setdefault(src_ip, {}); ports[dport] = timestamp *)
  let ports := <[dport := timestamp]> (default ∅ (active_ports !! src_ip)) in
  let ports :=
    if decide (ports = ∅) then ports
    else filter (fun kv => Float.ltb (snd kv) cutoff = false) ports in
  if decide (ports = ∅) then (0, delete src_ip active_ports)
  else (size ports, <[src_ip := ports]> active_ports).

(** *** The incremental path *)

Definition _compute_incremental_features (B : builtins) (p : t) (record : PacketRecord)
  : result (FeatureVector * t) :=
  let timestamp := timestamp record in
  protocol ← Float.of_pyint (protocol record);
  packet_size ← Float.of_pyint (packet_size record);
  let time_diff :=
    match _last_timestamp p with
    | None => Float.zero
    | Some last =>
        let d := Float.sub timestamp last in
        if Float.ltb d Float.zero then Float.zero else d
    end in
  packet_size_log ←
    (if Float.ltb Float.zero packet_size
     then Float.math_log1p (log1p_finite B) packet_size
     else Ok Float.zero);
  let is_ephemeral := if decide (49152 <= sport record)%Z then Float.one else Float.zero in
  let '(unique_dports, active) :=
    _update_unique_dports (_active_ports p) timestamp (src_ip record) (dport record) in
  let direction :=
    if decide (_local_ips p <> ∅ /\ src_ip record ∈ _local_ips p)
    then Float.one else Float.zero in
  (* the returned dictionary is built last: [float(dport)] is evaluated after
     the last timestamp and the port table have been updated *)
  dport ← Float.of_pyint (dport record);
  Ok ({| f_protocol := protocol;
         f_packet_size_log := packet_size_log;
         f_time_diff := time_diff;
         f_dport := dport;
         f_is_ephemeral_sport := is_ephemeral;
         f_unique_dports_15s := Float.of_nat unique_dports;
         f_direction := direction |},
      {| _local_ips := _local_ips p;
         _window_size := _window_size p;
         packet_data := packet_data p;
         _record_pool := _record_pool p;
         _last_timestamp := Some timestamp;
         _active_ports := active |}).

(** [extract_features(packet)]; [now] is what [time.time()] reads. *)
Definition extract_features (B : builtins) (now : float) (p : t)
    (packet : option (gmap string pyval)) : result (FeatureVector * t) :=
  match packet with
  | None => Raise (ValueError "packet is required")
  | Some packet =>
      timestamp ← py_float B
        (match packet !! "timestamp" with
         | Some v => v
         | None => get_or packet "ts" (VFloat now)
         end);
      let src_ip := py_str B
        (match packet !! "src_ip" with
         | Some v => v
         | None => py_or (get packet "source") (get_or packet "ip" (VStr ""))
         end) in
      let dest_ip := py_str B
        (match packet !! "dest_ip" with
         | Some v => v
         | None => py_or (get packet "dst_ip") (get_or packet "destination" (VStr ""))
         end) in
      let proto := get packet "protocol" in
      let proto := match proto with VNone => get_or packet "proto" (VInt 0) | _ => proto end in
      let proto := match proto with VStr s => VInt (protocol_of_name s) | _ => proto end in
      protocol ← py_int B proto;
      let packet_size := get packet "packet_size" in
      let packet_size :=
        match packet_size with VNone => get packet "length" | _ => packet_size end in
      let packet_size :=
        match packet_size with VNone => get_or packet "size" (VInt 0) | _ => packet_size end in
      packet_size ← py_int B packet_size;
      let sport := get packet "sport" in
      let sport := match sport with VNone => get packet "src_port" | _ => sport end in
      let sport :=
        match sport with VNone => get_or packet "source_port" (VInt 0) | _ => sport end in
      sport ← py_int B sport;
      let dport := get packet "dport" in
      let dport := match dport with VNone => get packet "dst_port" | _ => dport end in
      let dport :=
        match dport with VNone => get_or packet "destination_port" (VInt 0) | _ => dport end in
      dport ← py_int B dport;
      let maxlen := PacketWindow.maxlen (packet_data p) in
      (* the record object that is reused carries no field over: all seven
         are assigned below *)
      '(pool, window) ←
        match _record_pool p with
        | _ :: _ => Ok (removelast (_record_pool p), packet_data p)
        | [] =>
            if decide (maxlen <> 0 /\ PacketWindow.len (packet_data p) = maxlen)
            then '(_, w) ← PacketWindow.popleft (packet_data p); Ok ([], w)
            else Ok ([], packet_data p)
        end;
      let record := mkRecord timestamp src_ip dest_ip protocol packet_size sport dport in
      window ← PacketWindow.append window (Some record);
      _compute_incremental_features B
        {| _local_ips := _local_ips p;
           _window_size := _window_size p;
           packet_data := window;
           _record_pool := pool;
           _last_timestamp := _last_timestamp p;
           _active_ports := _active_ports p |}
        record
  end.

(** *** The batch path *)

(** The order [sort_values] uses on timestamps: NaN last. *)
Definition ts_le (a b : float) : bool :=
  match a, b with
  | _, Float.NaN => true
  | Float.NaN, _ => false
  | _, _ => Float.leb a b
  end.

Fixpoint insert_by_timestamp (r : PacketRecord) (l : list PacketRecord)
  : list PacketRecord :=
  match l with
  | [] => [r]
  | h :: rest =>
      if ts_le (timestamp h) (timestamp r) then h :: insert_by_timestamp r rest
      else r :: h :: rest
  end.

(** [df.sort_values("timestamp", kind="mergesort")]: stable. *)
Definition sort_values (df : list PacketRecord) : list PacketRecord :=
  foldl (fun acc r => insert_by_timestamp r acc) [] df.

Fixpoint nondecreasing (ts : list float) : bool :=
  match ts with
  | a :: (b :: _) as rest => Float.leb a b && nondecreasing rest
  | _ => true
  end.

(** [Series.is_monotonic_increasing]: a NaN anywhere makes it false. *)
Definition is_monotonic_increasing (ts : list float) : bool :=
  forallb (fun x => negb (Float.isnan x)) ts && nondecreasing ts.

(** [time_diff[0] = 0.0; time_diff[1:] = ts[1:] - ts[:-1]]. *)
Definition time_diffs (ts : list float) : list float :=
  match ts with
  | [] => []
  | _ :: later => Float.zero :: zip_with Float.sub later ts
  end.

(** [recent.groupby("src_ip")["dport"].nunique()] at one source; [None]
    when the source has no row in [recent]. *)
Definition nunique_dports (recent : list PacketRecord) (src : string) : option nat :=
  match filter (fun r => src_ip r = src) recent with
  | [] => None
  | rows => Some (size (list_to_set (dport <$> rows) : gset Z))
  end.

(** The [unique_dports_15s] column: one entry per row of the batch. *)
Definition unique_dports_column (p : t) (rows : list PacketRecord) : list float :=
  let zeros := (fun _ => Float.zero) <$> rows in
  if decide (PacketWindow.len (packet_data p) = 0) then zeros
  else
    match (entries ← PacketWindow.to_list (packet_data p); _records_to_frame entries) with
    | Raise _ => zeros
    | Ok current_window =>
        match last rows with
        | None => zeros
        | Some newest_row =>
            let cutoff := Float.sub (timestamp newest_row) (Float.of_int 15) in
            let recent :=
              filter (fun r => Float.geb (timestamp r) cutoff = true) current_window in
            (fun r => match nunique_dports recent (src_ip r) with
                      | Some n => Float.of_nat n
                      | None => Float.zero
                      end) <$> rows
        end
    end.

Definition features_of (row : ProcessedRow) : FeatureVector :=
  {| f_protocol := Float.of_int (protocol (row_record row));
     f_packet_size_log := row_packet_size_log row;
     f_time_diff := row_time_diff row;
     f_dport := Float.of_int (dport (row_record row));
     f_is_ephemeral_sport := row_is_ephemeral_sport row;
     f_unique_dports_15s := row_unique_dports_15s row;
     f_direction := row_direction row |}.

Definition columns (v : FeatureVector) : list float :=
  [f_protocol v; f_packet_size_log v; f_time_diff v; f_dport v;
   f_is_ephemeral_sport v; f_unique_dports_15s v; f_direction v].

Definition map_features (g : float -> float) (v : FeatureVector) : FeatureVector :=
  {| f_protocol := g (f_protocol v);
     f_packet_size_log := g (f_packet_size_log v);
     f_time_diff := g (f_time_diff v);
     f_dport := g (f_dport v);
     f_is_ephemeral_sport := g (f_is_ephemeral_sport v);
     f_unique_dports_15s := g (f_unique_dports_15s v);
     f_direction := g (f_direction v) |}.

(** [np.isnan(feature_view).any()]. *)
Definition any_isnan (table : list FeatureVector) : bool :=
  existsb (fun v => existsb Float.isnan (columns v)) table.

(** [engineer_features(df)]: the features table and the processed view, for
    a frame whose integer columns are [int64] columns of values below 2^53 in
    magnitude ([exact_fields]), as the frames of [get_dataframe] are for
    packets off the wire; beyond that the source rounds, wraps or raises in
    [to_numpy] where this definition goes on with the integers. *)
Definition engineer_features (B : builtins) (p : t) (df : option (list PacketRecord))
  : list FeatureVector * list ProcessedRow :=
  match df with
  | None | Some [] => ([], [])
  | Some df =>
      let df_processed :=
        if is_monotonic_increasing (timestamp <$> df) then df else sort_values df in
      let time_diff := time_diffs (timestamp <$> df_processed) in
      let unique := unique_dports_column p df_processed in
      let rows :=
        zip_with (fun r du =>
          {| row_record := r;
             row_time_diff := fst du;
             row_packet_size_log :=
               Float.np_log1p (log1p_finite B) (Float.of_int (packet_size r));
             row_is_ephemeral_sport :=
               if decide (49152 <= sport r)%Z then Float.one else Float.zero;
             row_unique_dports_15s := snd du;
             row_direction :=
               if decide (_local_ips p <> ∅ /\ src_ip r ∈ _local_ips p)
               then Float.one else Float.zero |})
          df_processed (zip time_diff unique) in
      let feature_view := features_of <$> rows in
      let feature_view :=
        if any_isnan feature_view
        then map_features Float.nan_to_num <$> feature_view
        else feature_view in
      (feature_view, rows)
  end.

(** *** Invariants and call sequences used by the properties *)

(** The three fields the incremental path passes to [float] convert. *)
Definition float_fields (r : PacketRecord) : bool :=
  Float.fits (protocol r) && Float.fits (packet_size r) && Float.fits (dport r).


(** The pool holds one spare record for every free slot of the window. *)
Definition pool_balanced (p : t) : Prop :=
  length (_record_pool p) + PacketWindow.len (packet_data p)
  = PacketWindow.maxlen (packet_data p).

(** [for r in records: extract_features(r.as_dict())]. *)
Fixpoint feed (B : builtins) (now : float) (p : t) (records : list PacketRecord)
  : result t :=
  match records with
  | [] => Ok p
  | r :: rest =>
      out ← extract_features B now p (Some (as_dict r));
      feed B now (snd out) rest
  end.

(** Timestamps in the order [sort_values] puts them: nondecreasing, NaN
    last. *)
Definition ts_sorted (l : list PacketRecord) : Prop :=
  Sorted (fun a b => ts_le (timestamp a) (timestamp b) = true) l.

(** Two timestamps the sort does not tell apart: equal numbers, or NaN
    both. *)
Definition same_time (a b : float) : bool := ts_le a b && ts_le b a.

(** [[extract_features(r.as_dict()) for r in records]]: the feature
    vectors, in order, and the processor after the last call. *)
Fixpoint extract_all (B : builtins) (now : float) (p : t) (records : list PacketRecord)
  : result (list FeatureVector * t) :=
  match records with
  | [] => Ok ([], p)
  | r :: rest =>
      '(fv, p) ← extract_features B now p (Some (as_dict r));
      '(fvs, p) ← extract_all B now p rest;
      Ok (fv :: fvs, p)
  end.





(** The first half of [extract_features]: the seven fields read from the
    mapping and converted, before the pool or the window is touched. *)
Definition read_fields (B : builtins) (now : float) (packet : gmap string pyval)
  : result PacketRecord :=
  timestamp ← py_float B
    (match packet !! "timestamp" with
     | Some v => v
     | None => get_or packet "ts" (VFloat now)
     end);
  let src_ip := py_str B
    (match packet !! "src_ip" with
     | Some v => v
     | None => py_or (get packet "source") (get_or packet "ip" (VStr ""))
     end) in
  let dest_ip := py_str B
    (match packet !! "dest_ip" with
     | Some v => v
     | None => py_or (get packet "dst_ip") (get_or packet "destination" (VStr ""))
     end) in
  let proto := get packet "protocol" in
  let proto := match proto with VNone => get_or packet "proto" (VInt 0) | _ => proto end in
  let proto := match proto with VStr s => VInt (protocol_of_name s) | _ => proto end in
  protocol ← py_int B proto;
  let packet_size := get packet "packet_size" in
  let packet_size :=
    match packet_size with VNone => get packet "length" | _ => packet_size end in
  let packet_size :=
    match packet_size with VNone => get_or packet "size" (VInt 0) | _ => packet_size end in
  packet_size ← py_int B packet_size;
  let sport := get packet "sport" in
  let sport := match sport with VNone => get packet "src_port" | _ => sport end in
  let sport :=
    match sport with VNone => get_or packet "source_port" (VInt 0) | _ => sport end in
  sport ← py_int B sport;
  let dport := get packet "dport" in
  let dport := match dport with VNone => get packet "dst_port" | _ => dport end in
  let dport :=
    match dport with VNone => get_or packet "destination_port" (VInt 0) | _ => dport end in
  dport ← py_int B dport;
  Ok (mkRecord timestamp src_ip dest_ip protocol packet_size sport dport).

(** The second half of [extract_features]: a record object is taken from
    the pool or from the full window, filled, appended, and the incremental
    features are computed. *)
Definition store_record (B : builtins) (p : t) (record : PacketRecord)
  : result (FeatureVector * t) :=
  let maxlen := PacketWindow.maxlen (packet_data p) in
  '(pool, window) ←
    match _record_pool p with
    | _ :: _ => Ok (removelast (_record_pool p), packet_data p)
    | [] =>
        if decide (maxlen <> 0 /\ PacketWindow.len (packet_data p) = maxlen)
        then '(_, w) ← PacketWindow.popleft (packet_data p); Ok ([], w)
        else Ok ([], packet_data p)
    end;
  window ← PacketWindow.append window (Some record);
  _compute_incremental_features B
    {| _local_ips := _local_ips p;
       _window_size := _window_size p;
       packet_data := window;
       _record_pool := pool;
       _last_timestamp := _last_timestamp p;
       _active_ports := _active_ports p |}
    record.

(** The last sighting of each destination port of [src] in [history]. *)
Definition last_sightings (history : list PacketRecord) (src : string) : gmap Z float :=
  foldl (fun m r => if decide (src_ip r = src) then <[dport r := timestamp r]> m else m)
        ∅ history.

(** What the port table is after [history] has gone through the incremental
    path in timestamp order, the latest timestamp being at most [hi]: every
    timestamp is finite, the last sighting of a port is not earlier than any
    sighting of it, and the table of each source holds its last sightings
    from a cutoff on that is at least 15 seconds before [hi]. *)
Definition ports_pruned (history : list PacketRecord)
    (active : gmap string (gmap Z float)) (hi : Q) : Prop :=
  (forall r, r ∈ history -> exists q, timestamp r = Float.Fin q /\ (q <= hi)%Q) /\
  (forall r, r ∈ history ->
     exists q qr, last_sightings history (src_ip r) !! dport r = Some (Float.Fin q) /\
                  timestamp r = Float.Fin qr /\ (qr <= q)%Q) /\
  (forall src, exists c : Q,
     (c <= hi - 15)%Q /\
     default ∅ (active !! src)
     = filter (fun kv : Z * float => Float.ltb (snd kv) (Float.Fin c) = false)
              (last_sightings history src)).

End PacketProcessor.
(** ** Paths and the file system

    A path string names a file; two different strings name two different
    files (paths are taken in one spelling, and the tree has no symbolic
    links).  [pathlib] paths are a root flag and a list of components. *)

Definition slash : Ascii.ascii := Ascii.ascii_of_nat 47.

Fixpoint split_slash (cur : string) (s : string) : list string :=
  match s with
  | EmptyString => [String.rev cur]
  | String c rest =>
      if Ascii.eqb c slash then String.rev cur :: split_slash "" rest
      else split_slash (String c cur) rest
  end.

Fixpoint join_slash (ps : list string) : string :=
  match ps with
  | [] => ""
  | [p] => p
  | p :: rest => p +:+ "/" +:+ join_slash rest
  end.

Module Path.

Record t : Type := mk {
  absolute : bool;
  parts : list string
}.

(** [Path(s)]: empty components and ["."] are dropped, [".."] is kept. *)
Definition of_string (s : string) : t :=
  {| absolute := match s with String c _ => Ascii.eqb c slash | EmptyString => false end;
     parts := filter (fun c => c <> "" /\ c <> ".") (split_slash "" s) |}.

Definition is_absolute (p : t) : bool := absolute p.

(** [base / other]. *)
Definition joinpath (base other : t) : t :=
  if absolute other then other
  else {| absolute := absolute base; parts := parts base ++ parts other |}.

(** Components with [".."] resolved against what precedes it; at the root
    [".."] stays at the root. [acc] is the resolved prefix, reversed. *)
Fixpoint collapse (acc : list string) (ps : list string) : list string :=
  match ps with
  | [] => reverse acc
  | c :: rest =>
      if String.eqb c ".." then collapse (tail acc) rest
      else collapse (c :: acc) rest
  end.

(** [p.resolve()] for an absolute [p]. *)
Definition resolve (p : t) : t :=
  {| absolute := absolute p; parts := collapse [] (parts p) |}.

Definition is_relative_to (p base : t) : bool :=
  bool_decide (absolute p = absolute base) && bool_decide (parts base `prefix_of` parts p).

(** [p.relative_to(base)]. *)
Definition relative_to (p base : t) : result t :=
  if is_relative_to p base
  then Ok {| absolute := false; parts := drop (length (parts base)) (parts p) |}
  else Raise (ValueError "path is not in the subpath of the base").

Definition parent (p : t) : t :=
  {| absolute := absolute p; parts := removelast (parts p) |}.

(** [reversed(p.parents)]: the directories above [p], outermost first. *)
Definition ancestors (p : t) : list t :=
  (fun k => {| absolute := absolute p; parts := take k (parts p) |})
    <$> seq 0 (length (parts p)).

(** [str(p)]. *)
Definition to_string (p : t) : string :=
  if absolute p then "/" +:+ join_slash (parts p)
  else match parts p with [] => "." | ps => join_slash ps end.

End Path.

Fixpoint drop_while {X : Type} (f : X -> bool) (l : list X) : list X :=
  match l with
  | [] => []
  | x :: rest => if f x then drop_while f rest else l
  end.

(** [os.path.dirname]: everything up to the last slash, without trailing
    slashes unless it consists of slashes only. *)
Definition dirname (p : string) : string :=
  let rev_head := drop_while (fun c => negb (Ascii.eqb c slash)) (reverse (String.list_ascii_of_string p)) in
  if forallb (fun c => Ascii.eqb c slash) rev_head
  then String.string_of_list_ascii (reverse rev_head)
  else String.string_of_list_ascii (reverse (drop_while (fun c => Ascii.eqb c slash) rev_head)).

(** [os.path.join(dir, name)] for a relative [name]. *)
Definition path_join (dir name : string) : string :=
  match reverse (String.list_ascii_of_string dir) with
  | [] => name
  | c :: _ => if Ascii.eqb c slash then dir +:+ name else dir +:+ "/" +:+ name
  end.

(** The directories above [p], outermost first: [os.path.dirname] applied
    again and again until it gives nothing new. *)
Fixpoint ancestors_upto (fuel : nat) (p : string) : list string :=
  match fuel with
  | 0 => []
  | S fuel =>
      let d := dirname p in
      if String.eqb d "" || String.eqb d p then [] else ancestors_upto fuel d ++ [d]
  end.

Definition ancestors (p : string) : list string := ancestors_upto (String.length p) p.
(** ** Python objects of a model bundle

    Plain data, and instances of classes: an instance is an object of its
    class with its state, hashable by identity, that is neither iterable nor
    a mapping (an estimator, a scaler). *)

#[local] Unset Elimination Schemes.

Inductive pyobj : Type :=
| PNone
| PInt (z : Z)
| PFloat (q : Q)
| PStr (s : string)
| PList (items : list pyobj)
| PDict (entries : list (string * pyobj))
| PInstance (module name : string) (state : pyobj).

#[local] Set Elimination Schemes.

Definition is_None (o : pyobj) : bool :=
  match o with PNone => true | _ => false end.

(** Truthiness, as [if not names] reads it. *)
Definition py_truthy (o : pyobj) : bool :=
  match o with
  | PNone => false
  | PInt z => negb (z =? 0)%Z
  | PFloat q => negb (Qeq_bool q 0)
  | PStr s => negb (String.eqb s "")
  | PList items => match items with [] => false | _ => true end
  | PDict entries => match entries with [] => false | _ => true end
  | PInstance _ _ _ => true
  end.

(** A dictionary with string keys, in insertion order. *)
Fixpoint assoc (k : string) (d : list (string * pyobj)) : option pyobj :=
  match d with
  | [] => None
  | (k', v) :: rest => if String.eqb k k' then Some v else assoc k rest
  end.

(** [d.get(k, default)]. *)
Definition dict_get (d : list (string * pyobj)) (k : string) (dflt : pyobj) : pyobj :=
  default dflt (assoc k d).

Definition chars (s : string) : list string :=
  (fun c => String c EmptyString) <$> String.list_ascii_of_string s.

(** [d[k] = v]: a key that is there keeps its place and gets the new value,
    a new key goes last. *)
Fixpoint dict_set (k : string) (v : pyobj) (d : list (string * pyobj))
  : list (string * pyobj) :=
  match d with
  | [] => [(k, v)]
  | (k', v') :: rest =>
      if String.eqb k k' then (k, v) :: rest else (k', v') :: dict_set k v rest
  end.

(** One element of the iterable given to [dict]: it has to be an iterable
    of two objects, the key and the value.  A list of two gives them, a
    string of two characters gives the characters, a dictionary of two
    entries gives its two keys. *)
Definition dict_item (item : pyobj) : result (pyobj * pyobj) :=
  match item with
  | PList [k; v] => Ok (k, v)
  | PStr s =>
      match chars s with
      | [a; b] => Ok (PStr a, PStr b)
      | _ => Raise (ValueError "dictionary update sequence element has the wrong length")
      end
  | PDict [(a, _); (b, _)] => Ok (PStr a, PStr b)
  | PList _ | PDict _ =>
      Raise (ValueError "dictionary update sequence element has the wrong length")
  | _ => Raise (TypeError "cannot convert dictionary update sequence element to a sequence")
  end.

(** The entry is stored: under a string key it replaces an earlier entry of
    the same key; a list or a dictionary cannot be a key; any other key is
    hashable, and Python stores the entry under it, where no lookup of this
    program, which are all by string, finds it: it is left out here. *)
Definition dict_store (d : list (string * pyobj)) (kv : pyobj * pyobj)
  : result (list (string * pyobj)) :=
  match fst kv with
  | PStr k => Ok (dict_set k (snd kv) d)
  | PList _ | PDict _ => Raise (TypeError "unhashable type")
  | _ => Ok d
  end.

(** [dict(o)]: a copy of a dictionary, or a dictionary built from an
    iterable of key-value pairs, element by element. *)
Definition py_dict (o : pyobj) : result (list (string * pyobj)) :=
  match o with
  | PDict entries => Ok entries
  | PList items => for_each (fun d item => kv ← dict_item item; dict_store d kv) items []
  | PStr s =>
      if String.eqb s "" then Ok []
      else Raise (ValueError "dictionary update sequence element has the wrong length")
  | _ => Raise (TypeError "object is not iterable")
  end.

(** The classes an object refers to, in the order a pickle of it names them. *)
Fixpoint classes_of (o : pyobj) : list (string * string) :=
  match o with
  | PList items => concat (map classes_of items)
  | PDict entries => concat (map (fun kv => match kv with (_, v) => classes_of v end) entries)
  | PInstance module name state => (module, name) :: classes_of state
  | _ => []
  end.

(** ** Files

    A file is what a reader of it meets: the operations of the pickle stream
    in stream order, and then either the pickled value or the point where
    the bytes stop being a pickle.  An operation is a reference to a class or
    function by module and name, which the reader resolves with
    [find_class], or a call of an object resolved earlier (the REDUCE, BUILD
    and NEWOBJ opcodes).  A reference carries whether its module and name can
    be imported.  A call returns, or raises, and what it does to the rest of
    the program is outside the model but for one thing the reader depends
    on: it can rebind the module's [_BANNED_GLOBALS].

    The bytes of a file are not fixed by these: the writer chooses a layout
    (memo numbering, padding of the arrays, framing), here a number.  Two
    files that are equal are byte-identical; a writer that serializes the
    same value twice is free to lay it out differently. *)

Record class_ref : Type := mkRef {
  ref_module : string;
  ref_name : string;
  importable : bool
}.

(** What a call made by the stream does: it returns and leaves the
    deny-list alone, it returns having bound [_BANNED_GLOBALS] to [names], or
    it raises an exception (a subclass of [Exception]). *)
Inductive call_effect : Type :=
| Returns
| Rebinds (names : list (string * string))
| Throws (e : exn).

Inductive pickle_op : Type :=
| Global (r : class_ref)
| Reduce (effect : call_effect).

Inductive file_content : Type :=
| Stream (layout : nat) (ops : list pickle_op) (value : pyobj)
| Truncated (ops : list pickle_op).

Definition ops_of (f : file_content) : list pickle_op :=
  match f with Stream _ ops _ | Truncated ops => ops end.

Definition empty_file : file_content := Truncated [].

(** [joblib.dump(payload, file)], as the bytes it leaves in the file: each
    class of the payload is referred to by name and its instance rebuilt by
    a call; the classes of an object that has just been dumped can be
    imported.  The layout is the writer's. *)
Definition joblib_dump (layout : nat) (payload : pyobj) : file_content :=
  Stream layout
         (concat ((fun c => [Global (mkRef (fst c) (snd c) true); Reduce Returns])
                    <$> classes_of payload))
         payload.

Module FS.

Record t : Type := mk {
  files : gmap string file_content;
  dirs : gset string
}.

(** [os.path.exists]. *)
Definition exists_ (fs : t) (p : string) : bool :=
  bool_decide (is_Some (files fs !! p)) || bool_decide (p ∈ dirs fs).

Definition with_files (fs : t) (fl : gmap string file_content) : t :=
  {| files := fl; dirs := dirs fs |}.

(** The first path of a chain of directories, outermost first, that is a
    regular file, with the paths after it. *)
Fixpoint blocking (fs : t) (chain : list string) : option (string * list string) :=
  match chain with
  | [] => None
  | a :: rest =>
      if bool_decide (is_Some (files fs !! a)) then Some (a, rest) else blocking fs rest
  end.

Definition with_dirs (fs : t) (chain : list string) : t :=
  {| files := files fs; dirs := list_to_set chain ∪ dirs fs |}.

(** [os.makedirs(name, exist_ok=True)]: the directories above [name] and
    [name] itself are made where they are missing.  A regular file at [name]
    raises [FileExistsError], one above it [NotADirectoryError], for the
    first directory that would lie under it. *)
Definition makedirs (fault : option exn) (fs : t) (name : string) : result t :=
  match fault with
  | Some e => Raise e
  | None =>
      if String.eqb name "" then Raise (FileNotFoundError "")
      else
        match blocking fs (ancestors name ++ [name]) with
        | Some (a, []) => Raise (FileExistsError a)
        | Some (_, b :: _) => Raise (NotADirectoryError b)
        | None => Ok (with_dirs fs (ancestors name ++ [name]))
        end
  end.

(** [tempfile.mkstemp(prefix, suffix, dir)] followed by [os.close(fd)]:
    the first candidate name that is free is created empty. *)
Definition mkstemp (fault : option exn) (candidates : list string) (fs : t)
    (prefix suffix dir : string) : result (string * t) :=
  match fault with
  | Some e => Raise e
  | None =>
      if negb (String.eqb dir "." || bool_decide (dir ∈ dirs fs))
      then Raise (FileNotFoundError dir)
      else
        match filter (fun n => exists_ fs (path_join dir (prefix +:+ n +:+ suffix)) = false)
                     candidates with
        | [] => Raise (FileExistsError "No usable temporary file name found")
        | n :: _ =>
            let tmp := path_join dir (prefix +:+ n +:+ suffix) in
            Ok (tmp, with_files fs (<[tmp := empty_file]> (files fs)))
        end
  end.

(** A failing write raises and leaves [leftover] in the file ([None]: the
    file is gone). *)
Definition write (fault : option (exn * option file_content)) (fs : t)
    (p : string) (c : file_content) : result unit * t :=
  match fault with
  | Some (e, Some partial) => (Raise e, with_files fs (<[p := partial]> (files fs)))
  | Some (e, None) => (Raise e, with_files fs (delete p (files fs)))
  | None => (Ok (), with_files fs (<[p := c]> (files fs)))
  end.

(** [os.replace(src, dst)]: atomic; a failure changes nothing. *)
Definition replace (fault : option exn) (fs : t) (src dst : string) : result t :=
  match fault with
  | Some e => Raise e
  | None =>
      match files fs !! src with
      | None => Raise (FileNotFoundError src)
      | Some c =>
          if bool_decide (dst ∈ dirs fs) then Raise (OSError "Is a directory")
          else Ok (with_files fs (<[dst := c]> (delete src (files fs))))
      end
  end.

(** [with contextlib.suppress(FileNotFoundError): os.remove(p)]. *)
Definition remove_quietly (fs : t) (p : string) : t :=
  with_files fs (delete p (files fs)).

End FS.

(** What the environment does to one call of [save_model]: which steps
    fail and how, the names [mkstemp] tries, and the layout [joblib.dump]
    gives the bytes. *)
Record save_env : Type := mkSaveEnv {
  makedirs_fault : option exn;
  mkstemp_fault : option exn;
  candidates : list string;
  dump_fault : option (exn * option file_content);
  dump_layout : nat;
  replace_fault : option exn
}.

(** Library functions of the detector: SHA-256 as a hex string, and [str]
    on objects that are not strings. *)
Record detector_env : Type := mkDetectorEnv {
  sha256_hexdigest : string -> string;
  str_other : pyobj -> string
}.

(** ** [AnomalyDetector] (anomaly_detector.py) *)

Definition MODEL_BUNDLE_VERSION : string := "1.0.0".

Definition _BANNED_GLOBALS : list (string * string) :=
  [("os", "system"); ("posix", "system"); ("subprocess", "Popen");
   ("subprocess", "call"); ("subprocess", "check_call"); ("builtins", "eval");
   ("builtins", "exec"); ("builtins", "__import__")].

Module AnomalyDetector.

Record t : Type := mk {
  model : pyobj;
  scaler : pyobj;
  feature_names : pyobj;
  meta : list (string * pyobj);
  contamination : Q;
  n_estimators : Z;
  random_state : Z
}.

Definition init (contamination : Q) (n_estimators random_state : Z) : t :=
  {| model := PNone; scaler := PNone; feature_names := PNone; meta := [];
     contamination := contamination; n_estimators := n_estimators;
     random_state := random_state |}.

Definition banned (module name : string) : bool :=
  bool_decide ((module, name) ∈ _BANNED_GLOBALS).

Definition blocked_message (c : string * string) : string :=
  "Blocked unsafe global reference " +:+ fst c +:+ "." +:+ snd c.

(** [_SecureUnpickler.find_class]; [banned_globals] is what the module
    global [_BANNED_GLOBALS] is bound to when the call is made. *)
Definition find_class (banned_globals : list (string * string)) (r : class_ref)
  : result unit :=
  if bool_decide ((ref_module r, ref_name r) ∈ banned_globals)
  then Raise (SecurityError (blocked_message (ref_module r, ref_name r)))
  else if importable r then Ok ()
  else Raise (ImportError (ref_module r +:+ "." +:+ ref_name r)).

(** One operation of the stream: the reader resolves a reference with
    [find_class], or calls; the state is the binding of [_BANNED_GLOBALS]. *)
Definition read_op (banned_globals : list (string * string)) (op : pickle_op)
  : result (list (string * string)) :=
  match op with
  | Global r => _ ← find_class banned_globals r; Ok banned_globals
  | Reduce Returns => Ok banned_globals
  | Reduce (Rebinds names) => Ok names
  | Reduce (Throws e) => Raise e
  end.

(** [unpickler.load()], in a process where [_BANNED_GLOBALS] is bound to
    the tuple the module defines when the load starts. *)
Definition unpickler_load (f : file_content) : result pyobj :=
  _ ← for_each read_op (ops_of f) _BANNED_GLOBALS;
  match f with
  | Stream _ _ value => Ok value
  | Truncated _ => Raise (UnpicklingError "invalid or truncated pickle")
  end.

Definition _load_secure_payload (fs : FS.t) (path : string)
  : result (list (string * pyobj)) :=
  let attempt :=
    match FS.files fs !! path with
    | None => Raise (OSError "cannot open")
    | Some f => unpickler_load f
    end in
  match attempt with
  | Raise (SecurityError msg) => Raise (SecurityError msg)
  | Raise _ => Raise (RuntimeError "Failed to load model bundle")
  | Ok (PDict payload) => Ok payload
  | Ok _ => Raise (RuntimeError "Model bundle has unexpected structure")
  end.

(** [load_model]: the detector after the call is returned also when the
    call raises. *)
Definition load_model (fs : FS.t) (self : t) (path : string) : result unit * t :=
  if negb (FS.exists_ fs path)
  then (Raise (FileNotFoundError ("Model file does not exist: " +:+ path)), self)
  else
    match _load_secure_payload fs path with
    | Raise e => (Raise e, self)
    | Ok payload =>
        let self :=
          {| model := dict_get payload "model" PNone;
             scaler := dict_get payload "scaler" PNone;
             feature_names := dict_get payload "feature_names" PNone;
             meta := meta self;
             contamination := contamination self;
             n_estimators := n_estimators self;
             random_state := random_state self |} in
        match py_dict (dict_get payload "meta" (PDict [])) with
        | Raise e => (Raise e, self)
        | Ok m =>
            let self :=
              {| model := model self; scaler := scaler self;
                 feature_names := feature_names self; meta := m;
                 contamination := contamination self;
                 n_estimators := n_estimators self;
                 random_state := random_state self |} in
            if is_None (model self) || is_None (scaler self) || is_None (feature_names self)
            then (Raise (RuntimeError "Loaded model bundle is incomplete."), self)
            else (Ok (), self)
        end
    end.

(** The bundle has [model], [scaler] and [feature_names], none of them
    [None]. *)
Definition complete (payload : list (string * pyobj)) : bool :=
  negb (is_None (dict_get payload "model" PNone)
        || is_None (dict_get payload "scaler" PNone)
        || is_None (dict_get payload "feature_names" PNone)).

(** No class that the three fitted objects refer to is on the deny-list. *)
Definition loadable (self : t) : bool :=
  forallb (fun c => negb (banned (fst c) (snd c)))
          (classes_of (model self) ++ classes_of (scaler self)
           ++ classes_of (feature_names self)).

(** A detector that has been fitted: the three objects are there. *)
Definition fitted (self : t) : bool :=
  negb (is_None (model self) || is_None (scaler self) || is_None (feature_names self)).

Definition py_str (E : detector_env) (o : pyobj) : string :=
  match o with PStr s => s | _ => str_other E o end.

(** [",".join(parts)]. *)
Fixpoint join_comma (ps : list string) : string :=
  match ps with
  | [] => ""
  | [p] => p
  | p :: rest => p +:+ "," +:+ join_comma rest
  end.

(** [_feature_checksum]. *)
Definition _feature_checksum (E : detector_env) (names : pyobj) : result string :=
  if negb (py_truthy names) then Ok ""
  else
    match names with
    | PList items => Ok (sha256_hexdigest E (join_comma (py_str E <$> items)))
    | PStr s => Ok (sha256_hexdigest E (join_comma (chars s)))
    | PDict entries => Ok (sha256_hexdigest E (join_comma (fst <$> entries)))
    | _ => Raise (TypeError "object is not iterable")
    end.

(** The bundle [save_model] writes; [trained_at] is the clock reading. *)
Definition bundle (self : t) (trained_at checksum : string) : pyobj :=
  PDict [("model", model self);
         ("scaler", scaler self);
         ("feature_names", feature_names self);
         ("meta", PDict [("contamination", PFloat (contamination self));
                         ("n_estimators", PInt (n_estimators self));
                         ("random_state", PInt (random_state self));
                         ("version", PStr MODEL_BUNDLE_VERSION);
                         ("trained_at", PStr trained_at);
                         ("feature_checksum", PStr checksum)])].

(** [save_model]: the file system after the call is returned also when the
    call raises. *)
Definition save_model (E : detector_env) (env : save_env) (trained_at : string)
    (fs : FS.t) (self : t) (path : string) : result unit * FS.t :=
  match FS.makedirs (makedirs_fault env) fs (dirname path) with
  | Raise e => (Raise e, fs)
  | Ok fs =>
      match _feature_checksum E (feature_names self) with
      | Raise e => (Raise e, fs)
      | Ok checksum =>
          let payload := bundle self trained_at checksum in
          let directory := if String.eqb (dirname path) "" then "." else dirname path in
          match FS.mkstemp (mkstemp_fault env) (candidates env) fs "model-" ".tmp" directory with
          | Raise e => (Raise e, fs)
          | Ok (tmp_path, fs) =>
              match FS.write (dump_fault env) fs tmp_path (joblib_dump (dump_layout env) payload) with
              | (Raise e, fs) => (Raise e, FS.remove_quietly fs tmp_path)
              | (Ok _, fs) =>
                  match FS.replace (replace_fault env) fs tmp_path path with
                  | Raise e => (Raise e, FS.remove_quietly fs tmp_path)
                  | Ok fs => (Ok (), fs)
                  end
              end
          end
      end
  end.

(** [Path.mkdir(parents=True, exist_ok=True)] on the parent of a resolved
    path: the directories above it and the directory itself are made where
    they are missing.  A regular file in its place raises [FileExistsError],
    one above it [NotADirectoryError]. *)
Definition mkdir_parents (fs : FS.t) (p : Path.t) : result FS.t :=
  let chain := Path.to_string <$> (Path.ancestors p ++ [p]) in
  match FS.blocking fs chain with
  | Some (_, []) => Raise (FileExistsError (Path.to_string p))
  | Some (_, _ :: _) => Raise (NotADirectoryError (Path.to_string p))
  | None => Ok (FS.with_dirs fs chain)
  end.

Definition escape_error : exn := ValueError "Model path escapes allowed directory".

(** [_resolve_model_path]; [model_dir] is [DEFAULT_MODEL_DIR], absolute and
    resolved. *)
Definition _resolve_model_path (model_dir : Path.t) (fs : FS.t) (path : string)
    (must_exist : bool) : result (Path.t * FS.t) :=
  let candidate := Path.of_string path in
  resolved ←
    (if Path.is_absolute candidate then Ok (Path.resolve candidate)
     else
       let resolved := Path.resolve (Path.joinpath model_dir candidate) in
       match Path.relative_to resolved model_dir with
       | Raise _ => Raise escape_error
       | Ok _ => Ok resolved
       end);
  if must_exist && negb (FS.exists_ fs (Path.to_string resolved))
  then Raise (FileNotFoundError ("Model file does not exist: " +:+ Path.to_string resolved))
  else
    fs ← mkdir_parents fs (Path.parent resolved);
    Ok (resolved, fs).

(** [load]: the detector and the file system after the call. *)
Definition load (model_dir : Path.t) (fs : FS.t) (self : t) (path : string)
  : result unit * t * FS.t :=
  match _resolve_model_path model_dir fs path true with
  | Raise e => (Raise e, self, fs)
  | Ok (resolved, fs) =>
      let '(r, self) := load_model fs self (Path.to_string resolved) in
      (r, self, fs)
  end.

(** [save]: the returned path and the file system after the call. *)
Definition save (E : detector_env) (env : save_env) (trained_at : string)
    (model_dir : Path.t) (fs : FS.t) (self : t) (path : string)
  : result string * FS.t :=
  match _resolve_model_path model_dir fs path false with
  | Raise e => (Raise e, fs)
  | Ok (resolved, fs) =>
      match save_model E env trained_at fs self (Path.to_string resolved) with
      | (Raise e, fs) => (Raise e, fs)
      | (Ok _, fs) => (Ok (Path.to_string resolved), fs)
      end
  end.

(** [list(o or [])]. *)
Definition list_or_empty (o : pyobj) : result (list pyobj) :=
  if negb (py_truthy o) then Ok []
  else
    match o with
    | PList items => Ok items
    | PStr s => Ok (PStr <$> chars s)
    | PDict entries => Ok ((fun kv => PStr (fst kv)) <$> entries)
    | _ => Raise (TypeError "object is not iterable")
    end.

(** [bundle_metadata]. *)
Definition bundle_metadata (E : detector_env) (self : t) : result pyobj :=
  names ← list_or_empty (feature_names self);
  checksum ← _feature_checksum E (feature_names self);
  Ok (PDict [("version", PStr MODEL_BUNDLE_VERSION);
             ("trained_at", dict_get (meta self) "trained_at" (PStr ""));
             ("feature_names", PList names);
             ("feature_count", PInt (Z.of_nat (length names)));
             ("feature_checksum", PStr checksum);
             ("params", PDict [("contamination", PFloat (contamination self));
                               ("n_estimators", PInt (n_estimators self));
                               ("random_state", PInt (random_state self))])]).

End AnomalyDetector.
(** ** Concrete inputs used by the examples below *)

Module Demo.

(** An environment for evaluating the model: the examples never look at a
    value of these functions. *)
Definition env : builtins :=
  {| log1p_finite := fun q => q;
     float_of_str := fun _ => None;
     int_of_str := fun _ => None;
     str_of_float := fun _ => "" |}.

Definition rec_a : PacketRecord :=
  mkRecord (Float.Fin 100) "192.168.1.100" "10.0.0.5" 6 60 51000 80.

(** A record seen seven seconds after [rec_a]. *)
Definition rec_late : PacketRecord :=
  mkRecord (Float.Fin 107) "192.168.1.100" "10.0.0.5" 17 120 51000 53.

(** A record whose size field is -1. *)
Definition rec_negative : PacketRecord :=
  mkRecord (Float.Fin 100) "192.168.1.100" "10.0.0.5" 6 (-1) 51000 80.

(** A record whose size field is -2. *)
Definition rec_negative2 : PacketRecord :=
  mkRecord (Float.Fin 100) "192.168.1.100" "10.0.0.5" 6 (-2) 51000 80.

(** A processor of window size 2 that has seen [rec_a]. *)
Definition one_packet : PacketProcessor.t :=
  {| PacketProcessor._local_ips := ∅;
     PacketProcessor._window_size := 2;
     PacketProcessor.packet_data := PacketWindow.mk [Some rec_a; None] 2 0 1;
     PacketProcessor._record_pool := [PacketProcessor.fresh_record];
     PacketProcessor._last_timestamp := Some (Float.Fin 100);
     PacketProcessor._active_ports := {[ "192.168.1.100" := {[ 80%Z := Float.Fin 100 ]} ]} |}.

(** A packet mapping whose size field is -1, and one where it is -2. *)
Definition packet_negative : gmap string pyval :=
  list_to_map [("timestamp", VFloat (Float.Fin 100)); ("src_ip", VStr "192.168.1.100");
               ("dest_ip", VStr "10.0.0.5"); ("protocol", VInt 6);
               ("packet_size", VInt (-1)); ("sport", VInt 51000); ("dport", VInt 80)].

Definition packet_negative2 : gmap string pyval :=
  <["packet_size" := VInt (-2)]> packet_negative.

Definition packet_a : gmap string pyval :=
  list_to_map [("timestamp", VFloat (Float.Fin 100)); ("src_ip", VStr "192.168.1.100");
               ("dest_ip", VStr "10.0.0.5"); ("protocol", VStr "TCP");
               ("packet_size", VInt 60); ("sport", VInt 51000); ("dport", VInt 80)].

(** Stand-ins for SHA-256 and [str]: the examples compare digests only for
    equality of their inputs. *)
Definition denv : detector_env :=
  {| sha256_hexdigest := fun s => "sha256:" +:+ s;
     str_other := fun _ => "?" |}.

Definition forest : pyobj :=
  PInstance "sklearn.ensemble._iforest" "IsolationForest" (PDict [("n_estimators", PInt 20)]).

Definition std_scaler : pyobj :=
  PInstance "sklearn.preprocessing._data" "StandardScaler" (PDict []).

(** A detector trained on four features. *)
Definition trained : AnomalyDetector.t :=
  {| AnomalyDetector.model := forest;
     AnomalyDetector.scaler := std_scaler;
     AnomalyDetector.feature_names := PList [PStr "f1"; PStr "f2"; PStr "f3"; PStr "f4"];
     AnomalyDetector.meta := [];
     AnomalyDetector.contamination := 5 # 100;
     AnomalyDetector.n_estimators := 20;
     AnomalyDetector.random_state := 42 |}.





(** A pickle that fetches the detector's module from [sys.modules], sets
    its [_BANNED_GLOBALS] to the empty tuple with [setattr], and then calls
    [os.system] on the way to a well-formed bundle. *)
Definition unlisting_file : file_content :=
  Stream 0 [Global (mkRef "builtins" "setattr" true);
            Global (mkRef "_operator" "getitem" true);
            Global (mkRef "sys" "modules" true);
            Reduce Returns;
            Reduce (Rebinds []);
            Global (mkRef "posix" "system" true); Reduce Returns;
            Global (mkRef "sklearn.ensemble._iforest" "IsolationForest" true); Reduce Returns;
            Global (mkRef "sklearn.preprocessing._data" "StandardScaler" true); Reduce Returns]
         (PDict [("model", forest); ("scaler", std_scaler);
                 ("feature_names", PList [PStr "f1"])]).

Definition fs_unlisting : FS.t :=
  {| FS.files := {[ "/tmp/unlisting.pkl" := unlisting_file ]}; FS.dirs := {[ "/"; "/tmp" ]} |}.



(** A bundle that lacks its scaler. *)
Definition partial_bundle : file_content :=
  joblib_dump 0 (PDict [("model", forest); ("feature_names", PList [PStr "f1"])]).

Definition fs_partial : FS.t :=
  {| FS.files := {[ "/srv/models/partial.pkl" := partial_bundle ]};
     FS.dirs := {[ "/srv/models" ]} |}.

Definition fs_empty : FS.t :=
  {| FS.files := ∅; FS.dirs := {[ "/srv/models" ]} |}.

Definition model_dir : Path.t := Path.of_string "/srv/models".

(** An environment in which no step of a save fails. *)
Definition calm : save_env :=
  {| makedirs_fault := None; mkstemp_fault := None; candidates := ["k3x9q2ab"];
     dump_fault := None; dump_layout := 0; replace_fault := None |}.

Definition bundle_path : string := "/srv/models/model.pkl".

Definition first_clock : string := "2024-01-01T00:00:00+00:00".
Definition later_clock : string := "2024-01-01T00:00:05+00:00".

(** The files after [trained] is saved; after it is then saved again at
    the same clock reading; and after it is saved again five seconds later. *)
Definition fs_saved : FS.t :=
  snd (AnomalyDetector.save_model denv calm first_clock fs_empty trained bundle_path).

Definition reloaded : AnomalyDetector.t :=
  snd (AnomalyDetector.load_model fs_saved trained bundle_path).

Definition fs_resaved_at_once : FS.t :=
  snd (AnomalyDetector.save_model denv calm first_clock fs_saved reloaded bundle_path).

Definition fs_resaved_later : FS.t :=
  snd (AnomalyDetector.save_model denv calm later_clock fs_saved reloaded bundle_path).

End Demo.
(** * Properties *)

(** ** The error monad *)

Lemma bind_Ok_inv {T U : Type} (c : result T) (k : T -> result U) (u : U) :
  c ≫= k = Ok u -> exists v, c = Ok v /\ k v = Ok u.
Proof.
  destruct c as [v | e]; simpl; intros H; [eauto | discriminate].
Qed.

Ltac bind_inv H :=
  let v := fresh "v" in
  let E := fresh "E" in
  apply bind_Ok_inv in H; destruct H as (v & E & H).



(** ** The ring buffer *)

Section WindowFacts.
Context {A : Type} (py_None : A).
Import PacketWindow.

Lemma mod_add_inj (c s a b : nat) :
  a < c -> b < c -> (s + a) mod c = (s + b) mod c -> a = b.
Proof.
  intros Ha Hb Heq.
  assert (Hc : c <> 0) by lia.
  pose proof (Nat.div_mod_eq (s + a) c) as E1.
  pose proof (Nat.div_mod_eq (s + b) c) as E2.
  pose proof (Nat.mod_upper_bound (s + a) c Hc) as B1.
  rewrite Heq in E1.
  destruct (Nat.lt_trichotomy ((s + a) / c) ((s + b) / c)) as [Hlt | [He | Hgt]].
  - nia.
  - rewrite He in E1. lia.
  - nia.
Qed.

Lemma collect_seq {X : Type} (f : nat -> result X) (l : list X) :
  (forall i x, l !! i = Some x -> f i = Ok x) ->
  forall n k, k + n <= length l ->
  collect f (seq k n) = Ok (take n (drop k l)).
Proof.
  intros Hf n. induction n as [| n IH]; intros k Hk; simpl.
  - reflexivity.
  - destruct (lookup_lt_is_Some_2 l k) as [x Hx]; [lia |].
    rewrite (Hf _ _ Hx). simpl.
    rewrite IH by lia. simpl.
    rewrite (drop_S _ _ _ Hx). reflexivity.
Qed.

Lemma to_list_holds (w : t A) (l : list A) :
  wf w -> holds w l -> to_list w = Ok l.
Proof.
  intros (Hlen & Hcnt & Hst) (Hl & Hget). unfold to_list.
  rewrite (collect_seq _ l).
  - rewrite drop_0, <- Hl, firstn_all. reflexivity.
  - intros i x Hx.
    assert (i < length l) by (apply lookup_lt_is_Some; eauto).
    unfold py_mod. destruct (decide (_capacity w = 0)) as [E | _]; [lia |].
    simpl. unfold getitem. rewrite (Hget _ _ Hx). reflexivity.
  - lia.
Qed.

Lemma collect_seq_inv {X : Type} (f : nat -> result X) :
  forall n k (l : list X),
  collect f (seq k n) = Ok l ->
  length l = n /\ forall i x, l !! i = Some x -> f (k + i) = Ok x.
Proof.
  induction n as [| n IH]; intros k l H; simpl in H.
  - injection H as <-. split; [reflexivity |]. intros i x Hx. discriminate.
  - bind_inv H. bind_inv H. injection H as <-.
    destruct (IH _ _ E0) as [Hlen Hget]. split; [simpl; lia |].
    intros [| i] x Hx; simpl in Hx.
    + injection Hx as <-. rewrite Nat.add_0_r. exact E.
    + replace (k + S i) with (S k + i) by lia. apply Hget, Hx.
Qed.

Lemma to_list_Ok_holds (w : t A) (l : list A) :
  to_list w = Ok l -> holds w l.
Proof.
  unfold to_list. intros H. apply collect_seq_inv in H as [Hlen Hget].
  split; [exact Hlen |]. intros i x Hx. specialize (Hget i x Hx). simpl in Hget.
  bind_inv Hget. unfold py_mod in E. destruct (decide (_capacity w = 0)); [discriminate |].
  injection E as <-. unfold getitem in Hget.
  destruct (_buffer w !! _) eqn:Hb; [| discriminate]. congruence.
Qed.

Lemma init_wf (capacity : Z) : wf (init py_None capacity).
Proof.
  unfold wf, init; simpl. rewrite length_replicate. repeat split; lia.
Qed.

Lemma init_holds (capacity : Z) : holds (init py_None capacity) [].
Proof. split; [reflexivity | intros i x Hx; discriminate]. Qed.

Lemma newest_snoc_small {X : Type} (c : nat) (l : list X) (x : X) :
  length l < c -> newest c (l ++ [x]) = l ++ [x].
Proof.
  intros H. unfold newest. rewrite length_app. simpl.
  replace (length l + 1 - c) with 0 by lia. reflexivity.
Qed.

Lemma newest_snoc_full {X : Type} (c : nat) (l : list X) (x : X) :
  0 < c -> length l = c -> newest c (l ++ [x]) = drop 1 l ++ [x].
Proof.
  intros Hc H. unfold newest. rewrite length_app. simpl.
  replace (length l + 1 - c) with 1 by lia.
  rewrite drop_app_le by lia. reflexivity.
Qed.

Lemma append_holds (w : t A) (l : list A) (x : A) :
  wf w -> holds w l ->
  exists w', append w x = Ok w' /\ wf w' /\ _capacity w' = _capacity w /\
             holds w' (newest (_capacity w) (l ++ [x])).
Proof.
  intros (Hlen & Hcnt & Hst) (Hl & Hget). unfold append.
  destruct (decide (_capacity w = 0)) as [Hz | Hnz].
  - exists w. repeat split; try lia.
    + unfold newest. rewrite Hz, Nat.sub_0_r, drop_all. simpl. lia.
    + unfold newest. rewrite Hz, Nat.sub_0_r, drop_all. intros i y Hy. discriminate.
  - specialize (Hst ltac:(lia)).
    destruct (decide (_count w < _capacity w)) as [Hroom | Hfull].
    + unfold setitem.
      pose proof (Nat.mod_upper_bound (_start w + _count w) (_capacity w) Hnz) as Hidx.
      destruct (decide _) as [_ | Hbad]; [| lia]. simpl.
      eexists. split; [reflexivity |]. unfold wf, holds; simpl.
      rewrite length_insert, newest_snoc_small by lia.
      rewrite length_app; simpl.
      repeat split; try lia.
      intros i y Hy.
      destruct (decide (i = _count w)) as [-> | Hne].
      * rewrite lookup_app_r in Hy by lia.
        rewrite Hl, Nat.sub_diag in Hy. injection Hy as <-.
        apply list_lookup_insert_eq. lia.
      * assert (i < length (l ++ [x])) by (apply lookup_lt_is_Some; eauto).
        rewrite length_app in *; simpl in *.
        rewrite lookup_app_l in Hy by lia.
        rewrite list_lookup_insert_ne; [eauto |].
        intros Heq. apply mod_add_inj in Heq; lia.
    + assert (Hc : _count w = _capacity w) by lia.
      unfold setitem. destruct (decide _) as [_ | Hbad]; [| lia]. simpl.
      pose proof (Nat.mod_upper_bound (_start w + 1) (_capacity w) Hnz) as Hidx.
      eexists. split; [reflexivity |]. unfold wf, holds; simpl.
      rewrite length_insert, newest_snoc_full by lia.
      rewrite length_app, length_drop; simpl.
      repeat split; try lia.
      intros i y Hy.
      assert (Hi : i < length (drop 1 l ++ [x])) by (apply lookup_lt_is_Some; eauto).
      rewrite length_app, length_drop in Hi; simpl in Hi.
      rewrite Nat.Div0.add_mod_idemp_l.
      destruct (decide (i = _capacity w - 1)) as [-> | Hne].
      * rewrite lookup_app_r in Hy by (rewrite length_drop; lia).
        rewrite length_drop, Hl, Hc, Nat.sub_diag in Hy. injection Hy as <-.
        replace (_start w + 1 + (_capacity w - 1)) with (_start w + 1 * _capacity w) by lia.
        rewrite Nat.Div0.mod_add, Nat.mod_small by lia.
        apply list_lookup_insert_eq. lia.
      * rewrite lookup_app_l in Hy by (rewrite length_drop; lia).
        rewrite lookup_drop in Hy.
        rewrite list_lookup_insert_ne.
        -- replace (_start w + 1 + i) with (_start w + (1 + i)) by lia. eauto.
        -- intros Heq.
           replace (_start w) with ((_start w + 0) mod _capacity w) in Heq at 1
             by (rewrite Nat.add_0_r; apply Nat.mod_small; lia).
           replace (_start w + 1 + i) with (_start w + (1 + i)) in Heq by lia.
           apply mod_add_inj in Heq; lia.
Qed.

Lemma newest_app_newest {X : Type} (c : nat) (l r : list X) :
  newest c (newest c l ++ r) = newest c (l ++ r).
Proof.
  unfold newest. destruct (decide (length l <= c)) as [Hle | Hgt].
  - replace (length l - c) with 0 by lia. reflexivity.
  - rewrite !length_app, length_drop.
    replace (length l - (length l - c) + length r - c) with (length r) by lia.
    replace (length l + length r - c) with (length l - c + length r) by lia.
    rewrite <- drop_drop, (drop_app_le l r (length l - c)) by lia. reflexivity.
Qed.

Lemma append_capacity_zero (w : t A) (x : A) :
  _capacity w = 0 -> append w x = Ok w.
Proof.
  intros H0. unfold append. destruct (decide (_capacity w = 0)); [reflexivity | lia].
Qed.

Lemma extend_holds (items : list A) :
  forall (w : t A) (l : list A),
  wf w -> holds w l ->
  exists w', extend w items = Ok w' /\ wf w' /\ _capacity w' = _capacity w /\
             holds w' (newest (_capacity w) (l ++ items)).
Proof.
  induction items as [| x rest IH]; intros w l Hwf Hh.
  - exists w. repeat split; try apply Hwf.
    + rewrite app_nil_r. unfold newest.
      destruct Hh as [Hl _]. destruct Hwf as (_ & Hc & _).
      replace (length l - _capacity w) with 0 by lia. apply Hl.
    + rewrite app_nil_r. unfold newest.
      destruct Hh as [Hl Hg]. destruct Hwf as (_ & Hc & _).
      replace (length l - _capacity w) with 0 by lia. apply Hg.
  - destruct (append_holds w l x Hwf Hh) as (w1 & E1 & Hwf1 & Hc1 & Hh1).
    destruct (IH w1 _ Hwf1 Hh1) as (w' & E' & Hwf' & Hc' & Hh').
    exists w'. unfold extend in *; simpl. rewrite E1; simpl.
    repeat split; try apply Hwf'; try congruence.
    + rewrite Hc1, newest_app_newest, <- app_assoc in Hh'. apply Hh'.
    + rewrite Hc1, newest_app_newest, <- app_assoc in Hh'. apply Hh'.
Qed.

(** C6. For every capacity [C] (clamped at 0 by the constructor) and every
    sequence of pushes into a fresh window, no push raises; afterwards the
    window's length is [min C n], hence at most [C]; iteration yields exactly
    the newest [C] items, oldest first, in insertion order; and a window of
    capacity 0 stays the empty window it was. *)
Theorem ring_window_push_sequence (C : Z) (items : list A) :
  exists w : t A,
    extend (init py_None C) items = Ok w /\
    maxlen w = Z.to_nat (Z.max 0 C) /\
    len w = Nat.min (maxlen w) (length items) /\
    len w <= maxlen w /\
    to_list w = Ok (newest (maxlen w) items) /\
    (maxlen w = 0 -> w = init py_None C).
Proof.
  destruct (extend_holds items _ [] (init_wf C) (init_holds C))
    as (w & E & Hwf & Hcap & Hh).
  change (_capacity (init py_None C)) with (Z.to_nat (Z.max 0 C)) in Hcap, Hh.
  rewrite app_nil_l in Hh.
  exists w. unfold maxlen, len.
  pose proof Hh as [Hl _]. pose proof Hwf as (_ & Hc & _).
  unfold newest in Hl. rewrite length_drop in Hl.
  split; [exact E |]. split; [exact Hcap |].
  split; [lia |]. split; [lia |]. split.
  - apply to_list_holds; [exact Hwf |]. rewrite Hcap. exact Hh.
  - intros Hz.
    assert (Hdrop : forall w0 : t A,
               _capacity w0 = 0 -> for_each append items w0 = Ok w0).
    { clear. induction items as [| x rest IH]; intros w0 H0; simpl; [reflexivity |].
      rewrite append_capacity_zero by exact H0. simpl. apply IH, H0. }
    unfold extend in E. rewrite Hdrop in E.
    + congruence.
    + simpl. lia.
Qed.

Lemma collect_total {X Y : Type} (f : X -> result Y) (xs : list X) :
  (forall x, x ∈ xs -> exists y, f x = Ok y) -> exists ys, collect f xs = Ok ys.
Proof.
  induction xs as [| x rest IH]; intros H; simpl; [eauto |].
  destruct (H x) as [y Hy]; [apply list_elem_of_here |].
  destruct IH as [ys Hys]; [intros z Hz; apply H, list_elem_of_further, Hz |].
  rewrite Hy, Hys. simpl. eauto.
Qed.

(** Iterating a well-formed window never raises. *)
Lemma wf_to_list (w : t A) : wf w -> exists l, to_list w = Ok l.
Proof.
  intros (Hlen & Hcnt & Hst). unfold to_list. apply collect_total.
  intros i Hi. apply elem_of_seq in Hi.
  unfold py_mod. destruct (decide (_capacity w = 0)) as [E | Hnz]; [lia |]. simpl.
  unfold getitem.
  destruct (lookup_lt_is_Some_2 (_buffer w) ((_start w + i) mod _capacity w)) as [x Hx].
  - rewrite Hlen. apply Nat.mod_upper_bound, Hnz.
  - rewrite Hx. eauto.
Qed.

(** [popleft] hands out the oldest item and keeps the rest in order. *)
Lemma popleft_oldest (w : t A) (x : A) (l : list A) :
  wf w -> holds w (x :: l) ->
  exists w', popleft w = Ok (x, w') /\ wf w' /\ _capacity w' = _capacity w /\ holds w' l.
Proof.
  intros (Hlen & Hcnt & Hst) (Hl & Hget). simpl in Hl. unfold popleft.
  destruct (decide (_count w = 0)) as [E | _]; [lia |].
  assert (Hnz : _capacity w <> 0) by lia. specialize (Hst ltac:(lia)).
  pose proof (Hget 0 x eq_refl) as H0.
  rewrite Nat.add_0_r, Nat.mod_small in H0 by exact Hst.
  unfold getitem. rewrite H0. simpl.
  unfold py_mod. destruct (decide (_capacity w = 0)) as [E | _]; [contradiction |]. simpl.
  eexists. split; [reflexivity |]. unfold wf, holds; simpl.
  pose proof (Nat.mod_upper_bound (_start w + 1) (_capacity w) Hnz).
  repeat split; try lia.
  intros i y Hy. rewrite Nat.Div0.add_mod_idemp_l.
  replace (_start w + 1 + i) with (_start w + S i) by lia.
  apply Hget. exact Hy.
Qed.

Lemma clear_empty (w : t A) : wf w -> wf (clear w) /\ to_list (clear w) = Ok [].
Proof.
  intros (Hlen & Hcnt & Hst). split; [| reflexivity].
  unfold wf, clear; simpl. repeat split; lia.
Qed.

Lemma holds_length (w : t A) (l : list A) :
  wf w -> holds w l -> length l = _count w /\ length l <= _capacity w.
Proof. intros (_ & Hc & _) (Hl & _). lia. Qed.

(** One call on a well-formed window is the same call on the queue. *)
Lemma call_refines (w : t A) (l : list A) (o : op A) :
  wf w -> holds w l ->
  match queue_call (_capacity w) l o with
  | Ok (out, l') =>
      exists w', call w o = Ok (out, w') /\ wf w' /\ _capacity w' = _capacity w /\ holds w' l'
  | Raise e => call w o = Raise e
  end.
Proof.
  intros Hwf Hh. destruct o as [item | | | records]; simpl.
  - destruct (append_holds w l item Hwf Hh) as (w' & E & Hwf' & Hc & Hh').
    exists w'. rewrite E. auto.
  - destruct l as [| x rest].
    + unfold popleft. destruct Hh as [Hl _]. simpl in Hl.
      destruct (decide (_count w = 0)); [reflexivity | lia].
    + destruct (popleft_oldest w x rest Hwf Hh) as (w' & E & Hwf' & Hc & Hh').
      exists w'. rewrite E. auto.
  - exists (clear w). split; [reflexivity |]. destruct Hwf as (Hlen & Hcnt & Hst).
    unfold wf, holds, clear; simpl. repeat split; try lia.
    intros i x Hx. discriminate.
  - destruct (extend_holds records w l Hwf Hh) as (w' & E & Hwf' & Hc & Hh').
    exists w'. rewrite E. auto.
Qed.

Lemma calls_refine_from (os : list (op A)) :
  forall (w : t A) (l : list A),
  wf w -> holds w l ->
  match queue_calls (_capacity w) l os with
  | Ok (outs, l') =>
      exists w', calls w os = Ok (outs, w') /\ wf w' /\ _capacity w' = _capacity w /\
                 holds w' l'
  | Raise e => calls w os = Raise e
  end.
Proof.
  induction os as [| o rest IH]; intros w l Hwf Hh; simpl.
  - exists w. auto.
  - pose proof (call_refines w l o Hwf Hh) as Hstep.
    destruct (queue_call (_capacity w) l o) as [[out l1] | e]; simpl.
    + destruct Hstep as (w1 & E1 & Hwf1 & Hc1 & Hh1). rewrite E1. simpl.
      specialize (IH w1 l1 Hwf1 Hh1). rewrite Hc1 in IH.
      destruct (queue_calls (_capacity w) l1 rest) as [[outs l'] | e]; simpl.
      * destruct IH as (w' & E' & Hwf' & Hc' & Hh'). rewrite E'. simpl.
        exists w'. repeat split; try apply Hwf'; try apply Hh'; congruence.
      * rewrite IH. reflexivity.
    + rewrite Hstep. reflexivity.
Qed.

(** Under any sequence of [append], [popleft], [clear] and [extend] calls a
    fresh window behaves as the queue that keeps the newest [capacity] items:
    the calls return the same items, the same call raises [IndexError] (a
    [popleft] that finds the window empty) and no other does, and at the end
    iteration yields the queue, oldest first, with at most [capacity] items. *)
Theorem window_refines_bounded_queue (C : Z) (os : list (op A)) :
  match queue_calls (Z.to_nat (Z.max 0 C)) [] os with
  | Ok (outs, l) =>
      exists w : t A,
        calls (init py_None C) os = Ok (outs, w) /\
        to_list w = Ok l /\ len w = length l /\ len w <= maxlen w /\
        maxlen w = Z.to_nat (Z.max 0 C)
  | Raise e =>
      calls (init py_None C) os = Raise e /\
      e = IndexError "pop from an empty PacketWindow"
  end.
Proof.
  pose proof (calls_refine_from os _ [] (init_wf C) (init_holds C)) as H.
  change (_capacity (init py_None C)) with (Z.to_nat (Z.max 0 C)) in H.
  destruct (queue_calls (Z.to_nat (Z.max 0 C)) [] os) as [[outs l] | e] eqn:Hq.
  - destruct H as (w & E & Hwf & Hc & Hh). exists w.
    destruct (holds_length w l Hwf Hh) as [Hl Hle].
    unfold len, maxlen. repeat split; try lia; try assumption.
    apply to_list_holds; assumption.
  - split; [exact H |]. clear H.
    revert Hq. generalize (@nil A). induction os as [| o rest IH]; intros l Hq; simpl in Hq.
    + discriminate.
    + destruct (queue_call _ l o) as [[out l1] | e1] eqn:Hc; simpl in Hq.
      * destruct (queue_calls _ l1 rest) as [[outs l'] | e2] eqn:Hr; simpl in Hq;
          [discriminate |].
        injection Hq as <-. eapply IH. exact Hr.
      * injection Hq as <-. destruct o; simpl in Hc; try discriminate.
        destruct l; [injection Hc as <-; reflexivity | discriminate].
Qed.

End WindowFacts.
(** ** Conversions of integers *)

Lemma round53_exact (z : Z) : Float.exact z = true -> Float.round53 z = z.
Proof.
  unfold Float.exact, Float.round53. intros H. apply Z.ltb_lt in H.
  assert (Hlog : (Z.log2 (Z.abs z) - 52 <= 0)%Z).
  { destruct (Z.eq_dec (Z.abs z) 0%Z) as [-> | Hnz]; [simpl; lia |].
    assert (Hpos : (0 < Z.abs z)%Z) by lia.
    pose proof (proj1 (Z.log2_lt_pow2 (Z.abs z) 53 Hpos) H). lia. }
  cbv zeta. apply Z.leb_le in Hlog. rewrite Hlog. reflexivity.
Qed.

Lemma fits_exact (z : Z) : Float.exact z = true -> Float.fits z = true.
Proof.
  intros H. unfold Float.fits. rewrite (round53_exact z H).
  unfold Float.exact in H. apply Z.ltb_lt in H. apply Z.ltb_lt.
  eapply Z.lt_trans; [exact H |]. apply Z.pow_lt_mono_r; lia.
Qed.



(** ** Timestamps on a grid

    On a grid of step [2^-k], [k <= 49], the cutoff [x - 15] and the
    difference of two timestamps are binary64 numbers: the exact [sub] is
    the binary64 one there. *)

Lemma pow2_nonzero (k : nat) : ~ inject_Z (2 ^ Z.of_nat k) == 0.
Proof.
  assert (H : (0 < 2 ^ Z.of_nat k)%Z) by (apply Z.pow_pos_nonneg; lia).
  unfold Qeq, inject_Z. simpl. lia.
Qed.

Lemma on_grid_cutoff (k : nat) (x : float) :
  k <= 49 -> Float.on_grid k x ->
  exists q, Float.sub x (Float.of_int 15) = Float.Fin q /\ Float.dyadic53 q.
Proof.
  intros Hk (z & q & Hz & -> & Hq).
  exists (Qred (q - inject_Z 15)). split; [reflexivity |].
  exists (z - 15 * 2 ^ Z.of_nat k)%Z, k. split; [| split; [lia |]].
  - assert (Hp : (0 < 2 ^ Z.of_nat k <= 2 ^ 49)%Z).
    { split; [apply Z.pow_pos_nonneg; lia | apply Z.pow_le_mono_r; lia]. }
    change (2 ^ 53)%Z with (16 * 2 ^ 49)%Z in *. lia.
  - rewrite Qred_correct, Hq.
    unfold Zminus. rewrite inject_Z_plus, inject_Z_opp, inject_Z_mult.
    field. apply pow2_nonzero.
Qed.

Lemma on_grid_difference (k : nat) (a b : float) :
  k <= 1074 -> Float.on_grid k a -> Float.on_grid k b ->
  exists q, Float.sub b a = Float.Fin q /\ Float.dyadic53 q.
Proof.
  intros Hk (za & qa & Hza & -> & Hqa) (zb & qb & Hzb & -> & Hqb).
  exists (Qred (qb - qa)). split; [reflexivity |].
  exists (zb - za)%Z, k. split; [lia |]. split; [exact Hk |].
  rewrite Qred_correct, Hqa, Hqb.
  unfold Zminus. rewrite inject_Z_plus, inject_Z_opp.
  field. apply pow2_nonzero.
Qed.
(** ** The port-recency table *)

Lemma Qltb_sub_15 (q : Q) : Float.Qltb q (Qred (q - inject_Z 15)) = false.
Proof.
  unfold Float.Qltb. apply negb_false_iff, Qle_bool_iff.
  rewrite Qred_correct. unfold inject_Z. lra.
Qed.

(** A timestamp is never older than its own 15-second cutoff. *)
Lemma ltb_own_cutoff (ts : float) :
  Float.ltb ts (Float.sub ts (Float.of_int 15)) = false.
Proof.
  destruct ts; simpl; try reflexivity. apply Qltb_sub_15.
Qed.

Section ProcessorFacts.
Import PacketProcessor.

Lemma update_unique_dports_keeps (active : gmap string (gmap Z float))
    (ts : float) (src : string) (port : Z) :
  exists ports : gmap Z float,
    _update_unique_dports active ts src port
      = (size ports, <[src := ports]> active) /\
    ports !! port = Some ts /\ 1 <= size ports.
Proof.
  unfold _update_unique_dports.
  set (ports0 := <[port := ts]> (default ∅ (active !! src))).
  set (cutoff := Float.sub ts (Float.of_int 15)).
  assert (Hne0 : ports0 <> ∅) by apply insert_non_empty.
  destruct (decide (ports0 = ∅)) as [E | _]; [contradiction |].
  set (ports := filter (fun kv : Z * float => Float.ltb (snd kv) cutoff = false) ports0).
  assert (Hin : ports !! port = Some ts).
  { apply map_lookup_filter_Some. split.
    - apply lookup_insert_eq.
    - simpl. apply ltb_own_cutoff. }
  assert (Hne : ports <> ∅).
  { intros E. rewrite E, lookup_empty in Hin. discriminate. }
  destruct (decide (ports = ∅)) as [E | _]; [contradiction |].
  exists ports. split; [reflexivity |]. split; [exact Hin |].
  destruct (size ports) eqn:Hs; [| lia].
  apply map_size_empty_iff in Hs. contradiction.
Qed.

(** After an update the sender's table holds exactly the ports, the new one
    included, that were seen no earlier than 15 seconds before the packet,
    and the count returned is their number. *)
Theorem update_unique_dports_trailing_window (active : gmap string (gmap Z float))
    (ts : float) (src : string) (port : Z) :
  exists ports : gmap Z float,
    _update_unique_dports active ts src port = (size ports, <[src := ports]> active) /\
    forall (q : Z) (seen_at : float),
      ports !! q = Some seen_at <->
      <[port := ts]> (default ∅ (active !! src)) !! q = Some seen_at /\
      Float.ltb seen_at (Float.sub ts (Float.of_int 15)) = false.
Proof.
  destruct (update_unique_dports_keeps active ts src port) as (ports & Hu & _ & _).
  exists ports. split; [exact Hu |].
  assert (Hp : ports = filter (fun kv : Z * float =>
                 Float.ltb (snd kv) (Float.sub ts (Float.of_int 15)) = false)
                 (<[port := ts]> (default ∅ (active !! src)))).
  { unfold _update_unique_dports in Hu.
    destruct (decide (<[port := ts]> (default ∅ (active !! src)) = ∅)) as [E | _];
      [exfalso; exact (insert_non_empty _ _ _ E) |].
    destruct (decide (filter _ _ = ∅)) as [E | _]; injection Hu as _ Hins;
      apply (f_equal (fun m => m !! src)) in Hins.
    - rewrite lookup_delete_eq, lookup_insert_eq in Hins. discriminate Hins.
    - rewrite !lookup_insert_eq in Hins. congruence. }
  rewrite Hp. intros q seen_at. apply map_lookup_filter_Some.
Qed.

Lemma leb_one_of_nat (n : nat) : 1 <= n -> Float.leb Float.one (Float.of_nat n) = true.
Proof.
  intros Hn. unfold Float.leb, Float.one, Float.of_nat, Float.of_int.
  apply Qle_bool_iff. change 1%Q with (inject_Z 1). rewrite <- Zle_Qle. lia.
Qed.

Lemma Qltb_inject_Z (a b : Z) : Float.Qltb (inject_Z a) (inject_Z b) = bool_decide (a < b)%Z.
Proof.
  unfold Float.Qltb. destruct (bool_decide_reflect (a < b)%Z) as [H | H].
  - apply negb_true_iff. destruct (Qle_bool (inject_Z b) (inject_Z a)) eqn:E; [| reflexivity].
    apply Qle_bool_iff in E. rewrite <- Zle_Qle in E. lia.
  - apply negb_false_iff, Qle_bool_iff. rewrite <- Zle_Qle. lia.
Qed.

(** The guarded logarithm of the incremental path never raises. *)
Lemma log1p_guarded (B : builtins) (q : Q) :
  exists lg,
    (if Float.ltb Float.zero (Float.Fin q)
     then Float.math_log1p (log1p_finite B) (Float.Fin q)
     else Ok Float.zero) = Ok lg.
Proof.
  unfold Float.ltb, Float.zero, Float.math_log1p.
  destruct (Float.Qltb 0 q) eqn:E; [| eauto].
  assert (H : Float.Qltb (-1) q = true).
  { unfold Float.Qltb in *. apply negb_true_iff in E. apply negb_true_iff.
    destruct (Qle_bool q (-1)) eqn:E1; [| reflexivity].
    apply Qle_bool_iff in E1.
    assert (E0 : Qle_bool q 0 = true) by (apply Qle_bool_iff; lra).
    congruence. }
  rewrite H. eauto.
Qed.

Lemma of_pyint_Ok (z : Z) (x : float) :
  Float.of_pyint z = Ok x -> Float.fits z = true /\ x = Float.of_int (Float.round53 z).
Proof.
  unfold Float.of_pyint. destruct (Float.fits z); [| discriminate].
  intros H. injection H as <-. auto.
Qed.

Lemma of_pyint_Raise (z : Z) (e : exn) :
  Float.of_pyint z = Raise e ->
  Float.fits z = false /\ e = OverflowError "int too large to convert to float".
Proof.
  unfold Float.of_pyint. destruct (Float.fits z); [discriminate |].
  intros H. injection H as <-. auto.
Qed.

(** What a call of [_compute_incremental_features] that returns has
    computed. *)
Lemma compute_incremental_inv (B : builtins) (p p' : t) (r : PacketRecord)
    (fv : FeatureVector) :
  _compute_incremental_features B p r = Ok (fv, p') ->
  exists lg,
    Float.fits (protocol r) = true /\ Float.fits (packet_size r) = true /\
    Float.fits (dport r) = true /\
    (if Float.ltb Float.zero (Float.of_int (Float.round53 (packet_size r)))
     then Float.math_log1p (log1p_finite B) (Float.of_int (Float.round53 (packet_size r)))
     else Ok Float.zero) = Ok lg /\
    fv = {| f_protocol := Float.of_int (Float.round53 (protocol r));
            f_packet_size_log := lg;
            f_time_diff :=
              match _last_timestamp p with
              | None => Float.zero
              | Some last =>
                  if Float.ltb (Float.sub (timestamp r) last) Float.zero then Float.zero
                  else Float.sub (timestamp r) last
              end;
            f_dport := Float.of_int (Float.round53 (dport r));
            f_is_ephemeral_sport :=
              if decide (49152 <= sport r)%Z then Float.one else Float.zero;
            f_unique_dports_15s :=
              Float.of_nat (fst (_update_unique_dports (_active_ports p) (timestamp r)
                                   (src_ip r) (dport r)));
            f_direction :=
              if decide (_local_ips p <> ∅ /\ src_ip r ∈ _local_ips p)
              then Float.one else Float.zero |} /\
    p' = {| _local_ips := _local_ips p;
            _window_size := _window_size p;
            packet_data := packet_data p;
            _record_pool := _record_pool p;
            _last_timestamp := Some (timestamp r);
            _active_ports :=
              snd (_update_unique_dports (_active_ports p) (timestamp r)
                     (src_ip r) (dport r)) |}.
Proof.
  unfold _compute_incremental_features. intros H.
  destruct (Float.of_pyint (protocol r)) as [pr |] eqn:Hpr; [| discriminate].
  cbn [mbind result_bind] in H.
  destruct (Float.of_pyint (packet_size r)) as [sz |] eqn:Hsz; [| discriminate].
  cbn [mbind result_bind] in H.
  apply of_pyint_Ok in Hpr as [Hpr ->]. apply of_pyint_Ok in Hsz as [Hsz ->].
  destruct (if Float.ltb Float.zero _ then _ else _) as [lg |] eqn:Hlg; [| discriminate].
  cbn [mbind result_bind] in H.
  destruct (_update_unique_dports _ _ _ _) as [n active].
  destruct (Float.of_pyint (dport r)) as [dp |] eqn:Hdp; [| discriminate].
  cbn [mbind result_bind] in H.
  apply of_pyint_Ok in Hdp as [Hdp ->].
  injection H as <- <-. exists lg. auto 10.
Qed.

(** The incremental path returns when the three fields convert, and raises
    [OverflowError] when one does not. *)
Lemma compute_incremental_returns (B : builtins) (p : t) (r : PacketRecord) :
  if float_fields r
  then exists fv p', _compute_incremental_features B p r = Ok (fv, p')
  else _compute_incremental_features B p r
       = Raise (OverflowError "int too large to convert to float").
Proof.
  unfold float_fields, _compute_incremental_features, Float.of_pyint.
  destruct (Float.fits (protocol r)); [| reflexivity].
  destruct (Float.fits (packet_size r)); [| reflexivity].
  cbn [mbind result_bind andb].
  destruct (log1p_guarded B (inject_Z (Float.round53 (packet_size r)))) as [lg Hlg].
  unfold Float.of_int. rewrite Hlg. cbn [mbind result_bind].
  destruct (_update_unique_dports _ _ _ _) as [n active].
  destruct (Float.fits (dport r)); cbn [mbind result_bind]; [eauto | reflexivity].
Qed.

Lemma compute_incremental_unique (B : builtins) (p p' : t) (r : PacketRecord)
    (fv : FeatureVector) :
  _compute_incremental_features B p r = Ok (fv, p') ->
  exists ports : gmap Z float,
    f_unique_dports_15s fv = Float.of_nat (size ports) /\
    1 <= size ports /\
    _active_ports p' = <[src_ip r := ports]> (_active_ports p) /\
    ports !! dport r = Some (timestamp r).
Proof.
  intros H. apply compute_incremental_inv in H as (lg & _ & _ & _ & _ & -> & ->).
  destruct (update_unique_dports_keeps (_active_ports p) (timestamp r) (src_ip r) (dport r))
    as (ports & Hu & Hin & Hsz).
  rewrite Hu. simpl. exists ports. repeat split; assumption.
Qed.

(** C10. Whenever [extract_features] returns, the [unique_dports_15s] it
    reports is the size of the sender's port table, which is at least 1: the
    table still holds the port just observed, stamped with the packet's own
    timestamp, and is the entry kept for the sender in the recency map, so
    the branch that drops the table and returns 0 was not taken. *)
Theorem extract_features_unique_dports_at_least_one (B : builtins) (now : float)
    (p p' : t) (packet : option (gmap string pyval)) (fv : FeatureVector) :
  extract_features B now p packet = Ok (fv, p') ->
  Float.leb Float.one (f_unique_dports_15s fv) = true /\
  exists (src : string) (ports : gmap Z float),
    _active_ports p' !! src = Some ports /\
    f_unique_dports_15s fv = Float.of_nat (size ports) /\
    1 <= size ports /\
    (exists port seen_at, ports !! port = Some seen_at /\ _last_timestamp p' = Some seen_at).
Proof.
  unfold extract_features. intros H.
  destruct packet as [packet |]; [| discriminate].
  do 6 bind_inv H. destruct v4 as [pool window]. bind_inv H.
  pose proof H as H'.
  apply compute_incremental_unique in H as (ports & Hf & Hsz & Hact & Hin).
  simpl in Hact, Hin. split.
  - rewrite Hf. apply leb_one_of_nat, Hsz.
  - eexists _, ports. split; [rewrite Hact; apply lookup_insert_eq |].
    split; [exact Hf |]. split; [exact Hsz |].
    eexists _, _. split; [exact Hin |].
    apply compute_incremental_inv in H' as (lg & _ & _ & _ & _ & _ & ->). reflexivity.
Qed.

(** ** The incremental features *)


(** For a record whose protocol, size and destination port are below 2^53
    in magnitude the incremental path returns, and its features are: the
    protocol and the destination port as floats; [log1p] of the size when the
    size is positive and 0 otherwise; 1 for a source port from 49152 on and 0
    below; a time difference that is never negative. The path returns
    whenever the three fields convert to floats, rounded or not, and whenever
    it raises, it raises the [OverflowError] of [float] on one of them, which
    is then beyond the binary64 range. *)
Theorem compute_incremental_features_values (B : builtins) (p : t) (r : PacketRecord) :
  (Float.exact (protocol r) = true -> Float.exact (packet_size r) = true ->
   Float.exact (dport r) = true ->
   exists (fv : FeatureVector) (p' : t),
     _compute_incremental_features B p r = Ok (fv, p') /\
     f_protocol fv = Float.of_int (protocol r) /\
     f_dport fv = Float.of_int (dport r) /\
     f_packet_size_log fv
     = (if decide (0 < packet_size r)%Z
        then Float.Fin (log1p_finite B (inject_Z (packet_size r))) else Float.zero) /\
     f_is_ephemeral_sport fv
     = (if decide (49152 <= sport r)%Z then Float.one else Float.zero) /\
     Float.ltb (f_time_diff fv) Float.zero = false /\
     _last_timestamp p' = Some (timestamp r)) /\
  (float_fields r = true ->
   exists (fv : FeatureVector) (p' : t), _compute_incremental_features B p r = Ok (fv, p')) /\
  (forall e, _compute_incremental_features B p r = Raise e ->
     e = OverflowError "int too large to convert to float" /\ float_fields r = false).
Proof.
  split.
  - intros Hpr Hsz Hdp.
    pose proof (compute_incremental_returns B p r) as Hret.
    unfold float_fields in Hret.
    rewrite (fits_exact _ Hpr), (fits_exact _ Hsz), (fits_exact _ Hdp) in Hret.
    destruct Hret as (fv & p' & H). exists fv, p'. split; [exact H |].
    apply compute_incremental_inv in H as (lg & _ & _ & _ & Hlg & -> & ->).
    rewrite (round53_exact _ Hpr), (round53_exact _ Hdp). rewrite (round53_exact _ Hsz) in Hlg.
    cbn [f_protocol f_dport f_packet_size_log f_is_ephemeral_sport f_time_diff
         _last_timestamp].
    split; [reflexivity |]. split; [reflexivity |]. split.
    { unfold Float.ltb, Float.zero, Float.of_int, Float.math_log1p in Hlg.
      change 0%Q with (inject_Z 0) in Hlg. rewrite Qltb_inject_Z in Hlg.
      destruct (decide (0 < packet_size r)%Z) as [Hpos | Hneg].
      - rewrite bool_decide_eq_true_2 in Hlg by exact Hpos.
        change (-1)%Q with (inject_Z (-1)) in Hlg. rewrite Qltb_inject_Z in Hlg.
        rewrite bool_decide_eq_true_2 in Hlg by lia. injection Hlg as <-. reflexivity.
      - rewrite bool_decide_eq_false_2 in Hlg by exact Hneg. injection Hlg as <-.
        reflexivity. }
    split; [reflexivity |]. split; [| reflexivity].
    destruct (_last_timestamp p) as [last |]; [| reflexivity].
    destruct (Float.ltb (Float.sub (timestamp r) last) Float.zero) eqn:E;
      [reflexivity | exact E].
  - split.
    + intros Hff. pose proof (compute_incremental_returns B p r) as Hret.
      rewrite Hff in Hret. exact Hret.
    + intros e H. pose proof (compute_incremental_returns B p r) as Hret.
      destruct (float_fields r).
      * destruct Hret as (fv & p' & Hok). congruence.
      * split; [congruence | reflexivity].
Qed.

Lemma compute_incremental_features_values_witness :
  Float.exact (protocol Demo.rec_a) = true /\
  Float.exact (packet_size Demo.rec_a) = true /\
  Float.exact (dport Demo.rec_a) = true /\
  exists fv p',
    _compute_incremental_features Demo.env (init ∅ 2) Demo.rec_a = Ok (fv, p') /\
    f_protocol fv = Float.Fin 6 /\ f_dport fv = Float.Fin 80.
Proof.
  assert (H1 : Float.exact (protocol Demo.rec_a) = true) by reflexivity.
  assert (H2 : Float.exact (packet_size Demo.rec_a) = true) by reflexivity.
  assert (H3 : Float.exact (dport Demo.rec_a) = true) by reflexivity.
  split; [exact H1 |]. split; [exact H2 |]. split; [exact H3 |].
  destruct (proj1 (compute_incremental_features_values Demo.env (init ∅ 2) Demo.rec_a)
              H1 H2 H3) as (fv & p' & H & Hp & Hd & _).
  exists fv, p'. split; [exact H |]. split; [exact Hp | exact Hd].
Defined.

(** ** The batch features *)

Lemma isnan_nan_to_num (x : float) : Float.isnan (Float.nan_to_num x) = false.
Proof. destruct x; reflexivity. Qed.

Lemma any_isnan_cleaned (table : list FeatureVector) :
  any_isnan (map_features Float.nan_to_num <$> table) = false.
Proof.
  induction table as [| v rest IH]; [reflexivity |].
  rewrite fmap_cons. unfold any_isnan in *. cbn [existsb]. rewrite IH.
  unfold columns, map_features. cbn [existsb f_protocol f_packet_size_log f_time_diff
    f_dport f_is_ephemeral_sport f_unique_dports_15s f_direction].
  rewrite !isnan_nan_to_num. reflexivity.
Qed.

(** The features table [engineer_features] returns never holds a NaN. *)
Theorem engineer_features_returns_no_nan (B : builtins) (p : t)
    (df : option (list PacketRecord)) :
  any_isnan (fst (engineer_features B p df)) = false.
Proof.
  unfold engineer_features. destruct df as [[| r rest] |]; try reflexivity.
  cbv zeta. set (rows := zip_with _ _ _).
  destruct (any_isnan (features_of <$> rows)) eqn:E; simpl.
  - apply any_isnan_cleaned.
  - exact E.
Qed.

(** ** The window of a processor *)

Lemma init_consistent (ips : gset string) (n : Z) : window_consistent (init ips n).
Proof. split; [apply init_wf | reflexivity]. Qed.

Lemma compute_incremental_frame (B : builtins) (p p' : t) (r : PacketRecord)
    (fv : FeatureVector) :
  _compute_incremental_features B p r = Ok (fv, p') ->
  packet_data p' = packet_data p /\ _window_size p' = _window_size p /\
  _local_ips p' = _local_ips p /\ _record_pool p' = _record_pool p.
Proof.
  intros H. apply compute_incremental_inv in H as (lg & _ & _ & _ & _ & _ & ->).
  simpl. auto.
Qed.



(** ** Resizing the window *)

Lemma slice_from_neg_newest {X : Type} (n : Z) (l : list X) :
  (1 <= n)%Z -> slice_from (- n) l = newest (Z.to_nat n) l.
Proof.
  intros Hn. unfold slice_from, newest.
  destruct (decide (- n < 0)%Z); [| lia]. f_equal. lia.
Qed.

Lemma newest_newest {X : Type} (c : nat) (l : list X) :
  newest c (newest c l) = newest c l.
Proof.
  rewrite <- (app_nil_r (newest c l)) at 1.
  rewrite newest_app_newest, app_nil_r. reflexivity.
Qed.

Lemma newest_min {X : Type} (c : nat) (l : list X) :
  newest (Nat.min c (length l)) l = newest c l.
Proof. unfold newest. f_equal. lia. Qed.

(** C7, as the code has it. The requested capacity is first raised to at
    least 1; the window then holds exactly the newest
    [min (max 1 new_C) len] items, oldest first, and nothing older. *)
Theorem set_window_size_keeps_newest (p : t) (new_C : Z)
    (items : list (option PacketRecord)) :
  window_consistent p ->
  PacketWindow.to_list (packet_data p) = Ok items ->
  exists p' : t,
    set_window_size p new_C = Ok p' /\
    window_size p' = Z.max 1 new_C /\
    PacketWindow.to_list (packet_data p')
      = Ok (newest (Nat.min (Z.to_nat (Z.max 1 new_C)) (length items)) items) /\
    window_consistent p'.
Proof.
  intros [Hwf Hcap] Hlist. unfold set_window_size.
  set (n := Z.max 1 new_C). assert (Hn : (1 <= n)%Z) by lia.
  rewrite newest_min.
  destruct (decide (n = _window_size p)) as [Heq | Hne].
  - exists p. split; [reflexivity |]. split; [unfold window_size; congruence |].
    split; [| split; assumption].
    rewrite Hlist. f_equal. unfold newest.
    apply to_list_Ok_holds in Hlist as [Hlen _].
    destruct Hwf as (_ & Hc & _). unfold PacketWindow.maxlen in Hcap.
    replace (length items - Z.to_nat n) with 0 by lia. reflexivity.
  - rewrite Hlist. simpl.
    destruct (extend_holds (slice_from (- n) items) _ []
                (init_wf None n) (init_holds None n)) as (w & E & Hwf' & Hcap' & Hh).
    rewrite E. simpl. eexists. split; [reflexivity |].
    change (PacketWindow._capacity (PacketWindow.init None n))
      with (Z.to_nat (Z.max 0 n)) in Hcap', Hh.
    replace (Z.to_nat (Z.max 0 n)) with (Z.to_nat n) in Hcap', Hh by lia.
    unfold window_size, window_consistent; simpl.
    split; [reflexivity |]. split.
    + apply to_list_holds; [exact Hwf' |].
      rewrite app_nil_l, slice_from_neg_newest, newest_newest in Hh by exact Hn.
      exact Hh.
    + split; [exact Hwf' |]. unfold PacketWindow.maxlen. rewrite Hcap'. lia.
Qed.

(** The example processor is the fresh one after [packet_a]. *)
Example one_packet_reached :
  exists fv : FeatureVector,
    extract_features Demo.env Float.zero (init ∅ 2) (Some Demo.packet_a)
    = Ok (fv, Demo.one_packet).
Proof. eexists. vm_compute. reflexivity. Qed.

Lemma extract_features_unique_dports_witness :
  extract_features Demo.env Float.zero (init ∅ 2) (Some Demo.packet_a)
    = Ok ({| f_protocol := Float.Fin 6;
             f_packet_size_log := Float.Fin (log1p_finite Demo.env 60);
             f_time_diff := Float.zero; f_dport := Float.Fin 80;
             f_is_ephemeral_sport := Float.one; f_unique_dports_15s := Float.Fin 1;
             f_direction := Float.zero |}, Demo.one_packet) /\
  Float.leb Float.one (Float.Fin 1) = true.
Proof.
  assert (H : extract_features Demo.env Float.zero (init ∅ 2) (Some Demo.packet_a)
    = Ok ({| f_protocol := Float.Fin 6;
             f_packet_size_log := Float.Fin (log1p_finite Demo.env 60);
             f_time_diff := Float.zero; f_dport := Float.Fin 80;
             f_is_ephemeral_sport := Float.one; f_unique_dports_15s := Float.Fin 1;
             f_direction := Float.zero |}, Demo.one_packet))
    by (vm_compute; reflexivity).
  split; [exact H |].
  exact (proj1 (extract_features_unique_dports_at_least_one _ _ _ _ _ _ H)).
Defined.

Lemma set_window_size_keeps_newest_witness :
  window_consistent Demo.one_packet /\
  PacketWindow.to_list (packet_data Demo.one_packet) = Ok [Some Demo.rec_a] /\
  exists p' : t,
    set_window_size Demo.one_packet 5 = Ok p' /\
    window_size p' = 5%Z /\
    PacketWindow.to_list (packet_data p') = Ok [Some Demo.rec_a] /\
    window_consistent p'.
Proof.
  assert (Hc : window_consistent Demo.one_packet).
  { unfold window_consistent, PacketWindow.wf, PacketWindow.maxlen. simpl.
    repeat split; lia. }
  assert (Hl : PacketWindow.to_list (packet_data Demo.one_packet) = Ok [Some Demo.rec_a])
    by reflexivity.
  split; [exact Hc |]. split; [exact Hl |].
  exact (set_window_size_keeps_newest Demo.one_packet 5 [Some Demo.rec_a] Hc Hl).
Defined.

(** C7, as the specification words it, fails at a requested capacity of 0:
    the window of one record keeps that record, where [min 0 1 = 0] items
    were to be retained. *)
Lemma set_window_size_zero_keeps_one :
  exists p' : t,
    set_window_size Demo.one_packet 0 = Ok p' /\
    PacketWindow.to_list (packet_data p') = Ok [Some Demo.rec_a] /\
    PacketWindow.to_list (packet_data Demo.one_packet) = Ok [Some Demo.rec_a] /\
    newest (Nat.min (Z.to_nat 0) 1) [Some Demo.rec_a] = [].
Proof. eexists. repeat split; vm_compute; reflexivity. Qed.

(** ** The batch path at a negative packet size *)

(** C8, at the input on which the code departs from it. A fresh processor
    is given, through [extract_features], one packet whose [packet_size] is
    -1; the window view it then hands out is that one record, and the
    features table [engineer_features] returns for it holds [-inf] in
    [packet_size_log]. No entry is NaN, so the clean-up that would have
    zeroed the infinity is skipped. *)
Theorem engineer_features_returns_infinity (B : builtins) (now : float) :
  exists (fv : FeatureVector) (p : t),
    extract_features B now (init ∅ 500) (Some Demo.packet_negative) = Ok (fv, p) /\
    get_dataframe p = Ok [Demo.rec_negative] /\
    fst (engineer_features B p (Some [Demo.rec_negative]))
    = [ {| f_protocol := Float.Fin 6; f_packet_size_log := Float.NegInf;
           f_time_diff := Float.zero; f_dport := Float.Fin 80;
           f_is_ephemeral_sport := Float.one; f_unique_dports_15s := Float.Fin 1;
           f_direction := Float.zero |} ] /\
    any_isnan (fst (engineer_features B p (Some [Demo.rec_negative]))) = false.
Proof.
  eexists _, _. split; [vm_compute; reflexivity |].
  split; [vm_compute; reflexivity |]. split; vm_compute; reflexivity.
Qed.

(** C9, at the input on which the batch path departs from it. For the
    packet of size -1 the incremental path returns 0 and the batch path, on
    the window view that holds the same packet, computes [-inf], in the
    processed view and in the features table; for size -2 the incremental
    path returns 0 again and the batch path computes NaN in the processed
    view. *)
Theorem packet_size_log_batch_negative_size (B : builtins) (now : float) :
  exists (fv fv2 : FeatureVector) (p p2 : t),
    extract_features B now (init ∅ 500) (Some Demo.packet_negative) = Ok (fv, p) /\
    f_packet_size_log fv = Float.zero /\
    get_dataframe p = Ok [Demo.rec_negative] /\
    (row_packet_size_log <$> snd (engineer_features B p (Some [Demo.rec_negative])))
    = [Float.NegInf] /\
    (f_packet_size_log <$> fst (engineer_features B p (Some [Demo.rec_negative])))
    = [Float.NegInf] /\
    extract_features B now (init ∅ 500) (Some Demo.packet_negative2) = Ok (fv2, p2) /\
    f_packet_size_log fv2 = Float.zero /\
    get_dataframe p2 = Ok [Demo.rec_negative2] /\
    (row_packet_size_log <$> snd (engineer_features B p2 (Some [Demo.rec_negative2])))
    = [Float.NaN].
Proof.
  eexists _, _, _, _.
  split; [vm_compute; reflexivity |]. split; [reflexivity |].
  split; [vm_compute; reflexivity |]. split; [vm_compute; reflexivity |].
  split; [vm_compute; reflexivity |]. split; [vm_compute; reflexivity |].
  split; [reflexivity |]. split; vm_compute; reflexivity.
Qed.

End ProcessorFacts.
(** ** Records fed back as mappings *)

Section RecordFacts.
Import PacketProcessor.

Lemma length_removelast {X : Type} (l : list X) :
  length (removelast l) = length l - 1.
Proof.
  rewrite removelast_firstn_len, length_take. lia.
Qed.

Lemma as_dict_lookup (r : PacketRecord) :
  as_dict r !! "timestamp" = Some (VFloat (timestamp r)) /\
  as_dict r !! "src_ip" = Some (VStr (src_ip r)) /\
  as_dict r !! "dest_ip" = Some (VStr (dest_ip r)) /\
  as_dict r !! "protocol" = Some (VInt (protocol r)) /\
  as_dict r !! "packet_size" = Some (VInt (packet_size r)) /\
  as_dict r !! "sport" = Some (VInt (sport r)) /\
  as_dict r !! "dport" = Some (VInt (dport r)).
Proof. repeat split; reflexivity. Qed.

(** The slot [extract_features] takes for the new record: afterwards the
    window is well-formed, has the capacity it had, and appending to it gives
    the newest [maxlen] of the old items and the new one. *)
Lemma take_slot (p : t) (items : list (option PacketRecord)) :
  window_consistent p ->
  PacketWindow.to_list (packet_data p) = Ok items ->
  exists pool window l,
    match _record_pool p with
    | _ :: _ => Ok (removelast (_record_pool p), packet_data p)
    | [] =>
        if decide (PacketWindow.maxlen (packet_data p) <> 0 /\
                   PacketWindow.len (packet_data p) = PacketWindow.maxlen (packet_data p))
        then '(_, w) ← PacketWindow.popleft (packet_data p); Ok ([], w)
        else Ok ([], packet_data p)
    end = Ok (pool, window) /\
    PacketWindow.wf window /\ PacketWindow.holds window l /\
    PacketWindow._capacity window = PacketWindow._capacity (packet_data p) /\
    (forall x, newest (PacketWindow._capacity (packet_data p)) (l ++ [x])
               = newest (PacketWindow._capacity (packet_data p)) (items ++ [x])) /\
    length pool + length l
    = (if decide (_record_pool p = [])
       then Nat.min (length items) (PacketWindow._capacity (packet_data p) - 1)
       else length (_record_pool p) - 1 + length items).
Proof.
  intros [Hwf Hcap] Hlist.
  pose proof (to_list_Ok_holds _ _ Hlist) as Hh.
  destruct (holds_length _ _ Hwf Hh) as [Hlen Hle].
  unfold PacketWindow.maxlen, PacketWindow.len in *.
  destruct (_record_pool p) as [| r0 pool0] eqn:Hpool.
  - destruct (decide _) as [[Hnz Hfull] | Hno].
    + destruct items as [| x0 rest]; [simpl in Hlen; lia |].
      destruct (popleft_oldest _ x0 rest Hwf Hh) as (w' & Hp & Hwf' & Hc' & Hh').
      rewrite Hp. simpl. exists [], w', rest.
      split; [reflexivity |]. split; [exact Hwf' |]. split; [exact Hh' |].
      split; [exact Hc' |]. simpl in Hlen. split.
      * intros x. unfold newest.
        change ((x0 :: rest) ++ [x]) with (x0 :: (rest ++ [x])).
        assert (Hr : length (rest ++ [x]) = length rest + 1)
          by (rewrite length_app; reflexivity).
        replace (length (x0 :: rest ++ [x]) - PacketWindow._capacity (packet_data p))
          with 1 by (simpl length; lia).
        replace (length (rest ++ [x]) - PacketWindow._capacity (packet_data p))
          with 0 by lia.
        reflexivity.
      * destruct (PacketWindow._capacity (packet_data p) - 1) eqn:Hm; simpl; lia.
    + exists [], (packet_data p), items.
      split; [reflexivity |]. split; [exact Hwf |]. split; [exact Hh |].
      split; [reflexivity |]. split; [reflexivity |].
      change (length (@nil PacketRecord)) with 0. destruct (decide _) as [_ | Hne]; [lia | contradiction].
  - exists (removelast (r0 :: pool0)), (packet_data p), items.
    split; [reflexivity |]. split; [exact Hwf |]. split; [exact Hh |].
    split; [reflexivity |]. split; [reflexivity |].
    destruct (decide (r0 :: pool0 = [])) as [E | _]; [discriminate |].
    rewrite length_removelast. simpl length. lia.
Qed.

(** The incremental features read the last timestamp, the port table and
    the local addresses, and nothing else of the processor. *)
Lemma compute_incremental_reads (B : builtins) (p q : t) (r : PacketRecord) :
  float_fields r = true ->
  _local_ips p = _local_ips q ->
  _last_timestamp p = _last_timestamp q ->
  _active_ports p = _active_ports q ->
  exists fv p1 q1,
    _compute_incremental_features B p r = Ok (fv, p1) /\
    _compute_incremental_features B q r = Ok (fv, q1) /\
    _last_timestamp p1 = _last_timestamp q1 /\
    _active_ports p1 = _active_ports q1 /\
    packet_data p1 = packet_data p /\ _window_size p1 = _window_size p /\
    _record_pool p1 = _record_pool p /\ _local_ips p1 = _local_ips p.
Proof.
  intros Hff Hips Hlast Hact.
  pose proof (compute_incremental_returns B p r) as Hp. rewrite Hff in Hp.
  destruct Hp as (fv & p1 & Hp).
  pose proof (compute_incremental_returns B q r) as Hq. rewrite Hff in Hq.
  destruct Hq as (fv' & q1 & Hq).
  pose proof Hp as Hp'. pose proof Hq as Hq'.
  apply compute_incremental_inv in Hp' as (lg & _ & _ & _ & Hlg & Hfv & Hp1).
  apply compute_incremental_inv in Hq' as (lg' & _ & _ & _ & Hlg' & Hfv' & Hq1).
  assert (lg' = lg) by congruence. subst lg'.
  rewrite <- Hips, <- Hlast, <- Hact in Hfv'. rewrite <- Hips, <- Hact in Hq1.
  assert (Hsame : fv' = fv) by (rewrite Hfv, Hfv'; reflexivity).
  rewrite Hsame in Hq.
  exists fv, p1, q1. split; [exact Hp |]. split; [exact Hq |].
  rewrite Hp1, Hq1. simpl. auto 10.
Qed.

Lemma extract_features_as_dict_step (B : builtins) (now : float) (p : t)
    (r : PacketRecord) (items : list (option PacketRecord)) :
  float_fields r = true ->
  window_consistent p ->
  PacketWindow.to_list (packet_data p) = Ok items ->
  exists fv p' p0,
    extract_features B now p (Some (as_dict r)) = Ok (fv, p') /\
    _compute_incremental_features B p r = Ok (fv, p0) /\
    _last_timestamp p' = _last_timestamp p0 /\
    _active_ports p' = _active_ports p0 /\
    _local_ips p' = _local_ips p /\
    PacketWindow.to_list (packet_data p')
    = Ok (newest (PacketWindow.maxlen (packet_data p)) (items ++ [Some r])) /\
    window_consistent p'.
Proof.
  intros Hff Hc Hlist.
  destruct (take_slot p items Hc Hlist) as (pool & window & l & Hslot & Hwf & Hh & Hcap & Hnew & _).
  destruct (append_holds window l (Some r) Hwf Hh) as (w2 & Ha & Hwf2 & Hc2 & Hh2).
  destruct (compute_incremental_reads B
              {| _local_ips := _local_ips p; _window_size := _window_size p;
                 packet_data := w2; _record_pool := pool;
                 _last_timestamp := _last_timestamp p;
                 _active_ports := _active_ports p |} p r Hff eq_refl eq_refl eq_refl)
    as (fv & p1 & q1 & H1 & H2 & Hl & Hap & Hpd & Hws & _ & Hips).
  exists fv, p1, q1.
  destruct (as_dict_lookup r) as (L1 & L2 & L3 & L4 & L5 & L6 & L7).
  destruct r as [ts sip dip pr sz sp dp]. simpl in *.
  split.
  - unfold extract_features, get, get_or. rewrite L1, L2, L3, L4, L5, L6, L7. simpl.
    unfold PacketWindow.maxlen, PacketWindow.len in *. rewrite Hslot. simpl.
    rewrite Ha. simpl. exact H1.
  - split; [exact H2 |]. split; [exact Hl |]. split; [exact Hap |]. split; [exact Hips |].
    destruct Hc as [Hwf0 Hcap0]. unfold window_consistent, PacketWindow.maxlen in *.
    rewrite Hpd, Hws. split.
    + rewrite <- Hnew, <- Hcap. apply to_list_holds; assumption.
    + split; [exact Hwf2 | congruence].
Qed.

Lemma extract_features_as_dict_raises (B : builtins) (now : float) (p : t)
    (r : PacketRecord) (items : list (option PacketRecord)) :
  float_fields r = false ->
  window_consistent p ->
  PacketWindow.to_list (packet_data p) = Ok items ->
  extract_features B now p (Some (as_dict r))
  = Raise (OverflowError "int too large to convert to float").
Proof.
  intros Hff Hc Hlist.
  destruct (take_slot p items Hc Hlist)
    as (pool & window & l & Hslot & Hwf & Hh & _ & _ & _).
  destruct (append_holds window l (Some r) Hwf Hh) as (w2 & Ha & _).
  destruct (as_dict_lookup r) as (L1 & L2 & L3 & L4 & L5 & L6 & L7).
  pose proof (compute_incremental_returns B
                {| _local_ips := _local_ips p; _window_size := _window_size p;
                   packet_data := w2; _record_pool := pool;
                   _last_timestamp := _last_timestamp p;
                   _active_ports := _active_ports p |} r) as Hraise.
  rewrite Hff in Hraise.
  destruct r as [ts sip dip pr sz sp dp]. simpl in *.
  unfold extract_features, get, get_or. rewrite L1, L2, L3, L4, L5, L6, L7. simpl.
  unfold PacketWindow.maxlen, PacketWindow.len in *. rewrite Hslot. simpl.
  rewrite Ha. simpl. exact Hraise.
Qed.

(** A record handed to [extract_features] as its own [as_dict] is stored
    as it is. When its protocol, size and destination port convert to floats
    the call returns, the features are the ones the incremental path computes
    for the record, and the window holds the newest [maxlen] of its old items
    and the record; when one of them does not convert, the call raises the
    [OverflowError] of that conversion (the record is in the window by
    then: the conversion comes after the append). *)
Theorem extract_features_as_dict (B : builtins) (now : float) (p : t)
    (r : PacketRecord) (items : list (option PacketRecord)) :
  window_consistent p ->
  PacketWindow.to_list (packet_data p) = Ok items ->
  if float_fields r
  then
    exists fv p' p0,
      extract_features B now p (Some (as_dict r)) = Ok (fv, p') /\
      _compute_incremental_features B p r = Ok (fv, p0) /\
      _last_timestamp p' = _last_timestamp p0 /\
      _active_ports p' = _active_ports p0 /\
      PacketWindow.to_list (packet_data p')
      = Ok (newest (PacketWindow.maxlen (packet_data p)) (items ++ [Some r])) /\
      window_consistent p'
  else
    extract_features B now p (Some (as_dict r))
    = Raise (OverflowError "int too large to convert to float").
Proof.
  intros Hc Hlist. destruct (float_fields r) eqn:Hff.
  - destruct (extract_features_as_dict_step B now p r items Hff Hc Hlist)
      as (fv & p' & p0 & Hx & Hi & Hl & Hap & _ & Hw & Hc').
    exists fv, p', p0. auto 10.
  - exact (extract_features_as_dict_raises B now p r items Hff Hc Hlist).
Qed.

Lemma extract_features_as_dict_witness :
  window_consistent (init ∅ 2) /\
  PacketWindow.to_list (packet_data (init ∅ 2)) = Ok [] /\
  float_fields Demo.rec_a = true /\
  exists fv p',
    extract_features Demo.env Float.zero (init ∅ 2) (Some (as_dict Demo.rec_a)) = Ok (fv, p') /\
    PacketWindow.to_list (packet_data p') = Ok [Some Demo.rec_a].
Proof.
  assert (H1 : window_consistent (init ∅ 2)) by apply init_consistent.
  assert (H2 : PacketWindow.to_list (packet_data (init ∅ 2)) = Ok []) by reflexivity.
  assert (H3 : float_fields Demo.rec_a = true) by (vm_compute; reflexivity).
  split; [exact H1 |]. split; [exact H2 |]. split; [exact H3 |].
  pose proof (extract_features_as_dict Demo.env Float.zero (init ∅ 2) Demo.rec_a [] H1 H2) as H.
  rewrite H3 in H. destruct H as (fv & p' & p0 & Hx & _ & _ & _ & Hl & _).
  exists fv, p'. split; [exact Hx | exact Hl].
Defined.

Lemma newest_fmap {X Y : Type} (f : X -> Y) (c : nat) (l : list X) :
  newest c (f <$> l) = f <$> newest c l.
Proof. unfold newest. rewrite length_fmap, fmap_drop. reflexivity. Qed.

Lemma records_to_frame_Some (l : list PacketRecord) :
  _records_to_frame (Some <$> l) = Ok l.
Proof.
  unfold _records_to_frame. induction l as [| r rest IH]; [reflexivity |].
  rewrite fmap_cons. simpl. simpl in IH. rewrite IH. reflexivity.
Qed.

Lemma feed_from (B : builtins) (now : float) (rs : list PacketRecord) :
  forall (p : t) (l : list PacketRecord),
  Forall (fun r => float_fields r = true) rs ->
  window_consistent p ->
  PacketWindow.to_list (packet_data p) = Ok (Some <$> l) ->
  exists p',
    feed B now p rs = Ok p' /\
    PacketWindow.to_list (packet_data p')
    = Ok (Some <$> newest (PacketWindow.maxlen (packet_data p)) (l ++ rs)) /\
    window_consistent p' /\
    PacketWindow.maxlen (packet_data p') = PacketWindow.maxlen (packet_data p) /\
    _window_size p' = _window_size p.
Proof.
  induction rs as [| r rest IH]; intros p l Hff Hc Hlist; cbn [feed].
  - exists p. split; [reflexivity |]. rewrite app_nil_r. split; [| auto].
    rewrite Hlist. do 2 f_equal. unfold newest.
    apply to_list_Ok_holds in Hlist as Hh.
    destruct (holds_length _ _ (proj1 Hc) Hh) as [_ Hle]. rewrite length_fmap in Hle.
    unfold PacketWindow.maxlen.
    replace (length l - PacketWindow._capacity (packet_data p)) with 0 by lia. reflexivity.
  - apply Forall_cons in Hff as [Hr Hff].
    destruct (extract_features_as_dict_step B now p r (Some <$> l) Hr Hc Hlist)
      as (fv & p1 & _ & Hx & _ & _ & _ & _ & Hl1 & Hc1).
    rewrite Hx. cbn [mbind result_bind snd].
    assert (Hm : PacketWindow.maxlen (packet_data p1) = PacketWindow.maxlen (packet_data p)
                 /\ _window_size p1 = _window_size p).
    { unfold extract_features in Hx.
      do 6 bind_inv Hx. destruct v4 as [pool window]. bind_inv Hx.
      apply compute_incremental_frame in Hx as (Hpd & Hws & _ & _). simpl in Hpd, Hws.
      split; [| exact Hws].
      destruct Hc as [_ Hcap]. destruct Hc1 as [_ Hcap1]. congruence. }
    destruct Hm as [Hm Hws].
    change [Some r] with (Some <$> [r]) in Hl1. rewrite <- fmap_app, newest_fmap in Hl1.
    destruct (IH p1 _ Hff Hc1 Hl1) as (p' & Hf & Hl' & Hc' & Hm' & Hws').
    exists p'. split; [exact Hf |]. rewrite Hm in *.
    rewrite newest_app_newest, <- app_assoc in Hl'. simpl in Hl'.
    split; [exact Hl' |]. split; [exact Hc' |]. split; congruence.
Qed.

(** Records whose protocol, size and destination port convert to floats,
    fed one by one to a fresh processor, each as its own [as_dict], come back
    from [get_dataframe]: no call raises, and the window view is the newest
    [window_size] of the records, oldest first. *)
Theorem feed_then_get_dataframe (B : builtins) (now : float) (ips : gset string)
    (W : Z) (rs : list PacketRecord) :
  Forall (fun r => float_fields r = true) rs ->
  exists p : t,
    feed B now (init ips W) rs = Ok p /\
    get_dataframe p = Ok (newest (Z.to_nat (Z.max 0 W)) rs) /\
    window_consistent p /\ window_size p = W.
Proof.
  intros Hff.
  destruct (feed_from B now rs (init ips W) [] Hff (init_consistent ips W) eq_refl)
    as (p & Hf & Hl & Hc & Hm & Hws).
  exists p. split; [exact Hf |].
  change (PacketWindow.maxlen (packet_data (init ips W))) with (Z.to_nat (Z.max 0 W)) in Hl.
  rewrite app_nil_l in Hl. split; [| split; [exact Hc | exact Hws]].
  unfold get_dataframe. rewrite Hl. simpl.
  apply to_list_Ok_holds in Hl as Hh.
  destruct Hh as [Hlen _]. rewrite length_fmap in Hlen. unfold PacketWindow.len.
  destruct (decide (PacketWindow._count (packet_data p) = 0)) as [Hz | Hnz].
  - destruct (newest _ rs); [reflexivity | simpl in Hlen; lia].
  - apply records_to_frame_Some.
Qed.

Lemma feed_then_get_dataframe_witness :
  Forall (fun r => float_fields r = true) [Demo.rec_a; Demo.rec_late; Demo.rec_negative] /\
  exists p : t,
    feed Demo.env Float.zero (init ∅ 2) [Demo.rec_a; Demo.rec_late; Demo.rec_negative] = Ok p /\
    get_dataframe p = Ok [Demo.rec_late; Demo.rec_negative].
Proof.
  assert (H : Forall (fun r => float_fields r = true)
                     [Demo.rec_a; Demo.rec_late; Demo.rec_negative])
    by (repeat constructor).
  split; [exact H |].
  destruct (feed_then_get_dataframe Demo.env Float.zero ∅ 2 _ H) as (p & Hf & Hg & _).
  exists p. split; [exact Hf | exact Hg].
Defined.

(** ** The record pool *)

Lemma extract_features_balanced (B : builtins) (now : float) (p p' : t)
    (packet : option (gmap string pyval)) (fv : FeatureVector) :
  window_consistent p -> pool_balanced p ->
  extract_features B now p packet = Ok (fv, p') ->
  pool_balanced p'.
Proof.
  intros Hc Hb H.
  destruct (wf_to_list _ (proj1 Hc)) as [items Hlist].
  destruct (take_slot p items Hc Hlist)
    as (pool & window & l & Hslot & Hwf & Hh & Hcap & _ & Hsum).
  pose proof (to_list_Ok_holds _ _ Hlist) as Hh0.
  destruct (holds_length _ _ (proj1 Hc) Hh0) as [Hlen0 Hle0].
  unfold extract_features in H. destruct packet as [packet |]; [| discriminate].
  do 6 bind_inv H. destruct v4 as [pool1 window1]. bind_inv H.
  unfold PacketWindow.maxlen, PacketWindow.len in *.
  rewrite Hslot in E4. injection E4 as <- <-.
  match type of E5 with
  | PacketWindow.append _ ?x = _ =>
      destruct (append_holds window l x Hwf Hh) as (w2 & Ha & Hwf2 & Hc2 & Hh2)
  end.
  rewrite Ha in E5. injection E5 as <-.
  apply compute_incremental_frame in H as (Hpd & _ & _ & Hpool). simpl in Hpd, Hpool.
  unfold pool_balanced, PacketWindow.maxlen, PacketWindow.len in *.
  rewrite Hpd, Hpool.
  destruct (holds_length _ _ Hwf2 Hh2) as [Hlen2 _].
  rewrite <- Hlen2. unfold newest. rewrite length_drop, length_app. simpl length.
  rewrite Hc2, Hcap.
  destruct (decide (_record_pool p = [])) as [Hemp | Hne].
  - rewrite Hemp in Hb. simpl in Hb. lia.
  - assert (0 < length (_record_pool p))
      by (destruct (_record_pool p); [contradiction | simpl; lia]).
    lia.
Qed.

Lemma set_window_size_balanced (p p' : t) (new_size : Z) :
  window_consistent p ->
  set_window_size p new_size = Ok p' ->
  Z.max 1 new_size <> _window_size p ->
  pool_balanced p'.
Proof.
  intros [Hwf Hcap] H Hne. unfold set_window_size in H.
  destruct (decide (Z.max 1 new_size = _window_size p)) as [E | _]; [contradiction |].
  bind_inv H. bind_inv H. injection H as <-.
  destruct (extend_holds (slice_from (- Z.max 1 new_size) v) _ []
              (init_wf None (Z.max 1 new_size)) (init_holds None (Z.max 1 new_size)))
    as (w & Ew & Hwf' & Hcap' & Hh').
  rewrite Ew in E0. injection E0 as <-.
  change (PacketWindow._capacity (PacketWindow.init None (Z.max 1 new_size)))
    with (Z.to_nat (Z.max 0 (Z.max 1 new_size))) in Hcap'.
  destruct Hwf' as (_ & Hcnt & _).
  unfold pool_balanced, PacketWindow.maxlen, PacketWindow.len in *. simpl.
  set (pool := _record_pool p ++ records_of (slice_to (- Z.max 1 new_size) v)).
  set (target := Z.to_nat (Z.max 0 (Z.max 1 new_size - Z.of_nat (PacketWindow._count w)))).
  assert (Ht : target + PacketWindow._count w = PacketWindow._capacity w)
    by (subst target; lia).
  destruct (decide (length pool < target)) as [Hlt | Hge].
  - rewrite length_app, length_replicate. lia.
  - destruct (decide (target < length pool)) as [Hgt | Hle].
    + rewrite length_take. lia.
    + lia.
Qed.

(** The pool and the window together hold one record for every slot of the
    window. This is so for a fresh processor, every [extract_features] that
    returns keeps it so, and every [set_window_size] that changes the size
    makes it so; and then, for a window of capacity at least 1, either the
    pool has a spare record or the window is full, so that
    [extract_features] takes its record from one of the two. *)
Theorem record_pool_balanced :
  (forall (ips : gset string) (W : Z), pool_balanced (init ips W)) /\
  (forall B now p p' packet fv,
     window_consistent p -> pool_balanced p ->
     extract_features B now p packet = Ok (fv, p') -> pool_balanced p') /\
  (forall p p' new_size,
     window_consistent p -> set_window_size p new_size = Ok p' ->
     Z.max 1 new_size <> _window_size p -> pool_balanced p') /\
  (forall p, pool_balanced p -> 0 < PacketWindow.maxlen (packet_data p) ->
     _record_pool p <> [] \/
     PacketWindow.len (packet_data p) = PacketWindow.maxlen (packet_data p)).
Proof.
  split; [| split; [| split]].
  - intros ips W. unfold pool_balanced, init, PacketWindow.maxlen, PacketWindow.len. simpl.
    rewrite length_replicate. lia.
  - intros. eapply extract_features_balanced; eassumption.
  - intros. eapply set_window_size_balanced; eassumption.
  - intros p Hb Hpos. unfold pool_balanced in Hb.
    destruct (_record_pool p) as [| r0 rest]; [right; simpl in Hb; lia | left; discriminate].
Qed.

End RecordFacts.

(** ** The batch path: order of the rows and time differences *)

Section BatchFacts.
Import PacketProcessor.

Lemma ts_le_total (a b : float) : ts_le a b = false -> ts_le b a = true.
Proof.
  destruct a as [| | | x], b as [| | | y]; simpl; try reflexivity; try discriminate.
  intros H. apply Qle_bool_iff.
  destruct (Qle_bool x y) eqn:E; [discriminate |].
  destruct (Qlt_le_dec y x) as [Hlt | Hle]; [apply Qlt_le_weak, Hlt |].
  apply Qle_bool_iff in Hle. congruence.
Qed.

Lemma ts_le_trans (a b c : float) :
  ts_le a b = true -> ts_le b c = true -> ts_le a c = true.
Proof.
  destruct a as [| | | x], b as [| | | y], c as [| | | z]; simpl;
    try reflexivity; try discriminate.
  intros H1 H2. apply Qle_bool_iff in H1, H2. apply Qle_bool_iff.
  eapply Qle_trans; eassumption.
Qed.

Lemma insert_by_timestamp_perm (r : PacketRecord) (l : list PacketRecord) :
  Permutation (insert_by_timestamp r l) (r :: l).
Proof.
  induction l as [| h rest IH]; simpl; [reflexivity |].
  destruct (ts_le (timestamp h) (timestamp r)); [| reflexivity].
  rewrite IH. apply perm_swap.
Qed.

Lemma insert_by_timestamp_sorted (r : PacketRecord) (l : list PacketRecord) :
  ts_sorted l -> ts_sorted (insert_by_timestamp r l).
Proof.
  unfold ts_sorted. induction l as [| h rest IH]; simpl; intros Hs.
  - repeat constructor.
  - apply Sorted_inv in Hs as [Hrest Hhd].
    destruct (ts_le (timestamp h) (timestamp r)) eqn:E.
    + constructor; [apply IH, Hrest |].
      destruct rest as [| h2 rest2]; simpl.
      * constructor. exact E.
      * destruct (ts_le (timestamp h2) (timestamp r)); constructor;
          [apply HdRel_inv in Hhd; exact Hhd | exact E].
    + constructor; [constructor; assumption |].
      constructor. apply ts_le_total, E.
Qed.

Lemma sort_values_from (df acc : list PacketRecord) :
  ts_sorted acc ->
  ts_sorted (foldl (fun a r => insert_by_timestamp r a) acc df) /\
  Permutation (foldl (fun a r => insert_by_timestamp r a) acc df) (acc ++ df).
Proof.
  revert acc. induction df as [| r rest IH]; intros acc Hs; simpl.
  - rewrite app_nil_r. split; [exact Hs | reflexivity].
  - destruct (IH (insert_by_timestamp r acc) (insert_by_timestamp_sorted r acc Hs))
      as [Hs' Hp'].
    split; [exact Hs' |]. rewrite Hp', insert_by_timestamp_perm.
    simpl. apply Permutation_middle.
Qed.

(** Inserting a record that is not before any record of a sorted list puts
    it at the end. *)
Lemma insert_by_timestamp_last (r : PacketRecord) (l : list PacketRecord) :
  Forall (fun h => ts_le (timestamp h) (timestamp r) = true) l ->
  insert_by_timestamp r l = l ++ [r].
Proof.
  induction 1 as [| h rest Hh Hrest IH]; simpl; [reflexivity |].
  rewrite Hh, IH. reflexivity.
Qed.

Lemma leb_ts_le (a b : float) : Float.leb a b = true -> ts_le a b = true.
Proof. destruct a, b; simpl; try reflexivity; try discriminate; auto. Qed.

Lemma nondecreasing_sorted (df : list PacketRecord) :
  nondecreasing (timestamp <$> df) = true -> ts_sorted df.
Proof.
  unfold ts_sorted. induction df as [| a rest IH]; intros H; [constructor |].
  destruct rest as [| b rest'].
  - repeat constructor.
  - rewrite !fmap_cons in H. simpl in H. apply andb_true_iff in H as [Hab Hrest].
    constructor; [apply IH; rewrite fmap_cons; exact Hrest |].
    constructor. apply leb_ts_le, Hab.
Qed.

Lemma strongly_sorted_before {X : Type} (R : X -> X -> Prop) (l1 l2 : list X) (x : X) :
  StronglySorted R (l1 ++ x :: l2) -> Forall (fun h => R h x) l1.
Proof.
  induction l1 as [| h rest IH]; simpl; intros H; [constructor |].
  apply StronglySorted_inv in H as [Hrest Hall].
  constructor; [| apply IH, Hrest].
  rewrite List.Forall_forall in Hall. apply Hall.
  apply in_or_app. right. left. reflexivity.
Qed.

Lemma sort_values_from_sorted (df : list PacketRecord) :
  forall acc,
  StronglySorted (fun a b => ts_le (timestamp a) (timestamp b) = true) (acc ++ df) ->
  foldl (fun a r => insert_by_timestamp r a) acc df = acc ++ df.
Proof.
  induction df as [| r rest IH]; intros acc Hs; simpl.
  - rewrite app_nil_r. reflexivity.
  - rewrite (insert_by_timestamp_last r acc).
    + rewrite IH; rewrite <- app_assoc; [reflexivity | exact Hs].
    + apply (strongly_sorted_before _ acc rest r Hs).
Qed.

(** A frame whose timestamps are monotonic is left as it is by the sort. *)
Lemma sort_values_monotonic (df : list PacketRecord) :
  is_monotonic_increasing (timestamp <$> df) = true -> sort_values df = df.
Proof.
  unfold is_monotonic_increasing, sort_values. intros H.
  apply andb_true_iff in H as [_ Hmono].
  apply (sort_values_from_sorted df []). simpl.
  apply Sorted_StronglySorted.
  - intros a b c. apply ts_le_trans.
  - apply nondecreasing_sorted, Hmono.
Qed.

Lemma unique_dports_column_length (p : t) (rows : list PacketRecord) :
  length (unique_dports_column p rows) = length rows.
Proof.
  unfold unique_dports_column.
  destruct (decide _); [apply length_fmap |].
  destruct (_ ≫= _); [| apply length_fmap].
  destruct (last rows); apply length_fmap.
Qed.

Lemma time_diffs_length (ts : list float) : length (time_diffs ts) = length ts.
Proof.
  destruct ts as [| a later]; [reflexivity |]. simpl. f_equal.
  rewrite length_zip_with. simpl. lia.
Qed.

Lemma zip_with_left {X Y Z : Type} (g : X -> Y -> Z) (h : Z -> X) (l : list X) :
  (forall x y, h (g x y) = x) ->
  forall k : list Y, length l <= length k -> h <$> zip_with g l k = l.
Proof.
  intros Hg. induction l as [| x rest IH]; intros k Hk; [reflexivity |].
  destruct k as [| y k']; simpl in *; [lia |].
  rewrite Hg, IH by lia. reflexivity.
Qed.

Lemma zip_with_right_fst {X Y1 Y2 Z : Type} (g : X -> Y1 * Y2 -> Z) (h : Z -> Y1)
    (l : list X) :
  (forall x y, h (g x y) = fst y) ->
  forall (a : list Y1) (b : list Y2),
  length a = length l -> length l <= length b ->
  h <$> zip_with g l (zip a b) = a.
Proof.
  intros Hg. induction l as [| x rest IH]; intros a b Ha Hb.
  - destruct a; [reflexivity | discriminate].
  - destruct a as [| y a']; [discriminate |].
    destruct b as [| z b']; simpl in *; [lia |].
    rewrite Hg, IH by lia. reflexivity.
Qed.

(** The rows [engineer_features] works on, for a frame that is not empty. *)
Lemma engineer_features_rows (B : builtins) (p : t) (r : PacketRecord)
    (rest : list PacketRecord) :
  (row_record <$> snd (engineer_features B p (Some (r :: rest)))) = sort_values (r :: rest) /\
  (row_time_diff <$> snd (engineer_features B p (Some (r :: rest))))
  = time_diffs (timestamp <$> sort_values (r :: rest)) /\
  length (fst (engineer_features B p (Some (r :: rest)))) = S (length rest).
Proof.
  unfold engineer_features. cbv zeta.
  set (df := r :: rest).
  assert (Hdfp : (if is_monotonic_increasing (timestamp <$> df) then df else sort_values df)
                 = sort_values df).
  { destruct (is_monotonic_increasing (timestamp <$> df)) eqn:E; [| reflexivity].
    symmetry. apply sort_values_monotonic, E. }
  rewrite Hdfp.
  assert (Hlen : length (sort_values df) = length df).
  { apply Permutation_length.
    apply (proj2 (sort_values_from df [] ltac:(constructor))). }
  set (rows := zip_with _ (sort_values df) _).
  assert (Hrows : length rows = length df).
  { subst rows. rewrite length_zip_with, length_zip, time_diffs_length, length_fmap,
      unique_dports_column_length. lia. }
  simpl snd. split; [| split].
  - subst rows. apply zip_with_left; [reflexivity |].
    rewrite length_zip, time_diffs_length, length_fmap, unique_dports_column_length. lia.
  - subst rows. apply zip_with_right_fst; [reflexivity | |].
    + rewrite time_diffs_length, length_fmap. reflexivity.
    + rewrite unique_dports_column_length. lia.
  - simpl fst. destruct (any_isnan (features_of <$> rows)); rewrite !length_fmap; exact Hrows.
Qed.

Lemma filter_none {X : Type} (P : X -> Prop) `{forall x, Decision (P x)} (l : list X) :
  Forall (fun x => ~ P x) l -> filter P l = [].
Proof.
  induction 1 as [| x rest Hx _ IH]; [reflexivity |].
  rewrite filter_cons, IH. destruct (decide (P x)); [contradiction | reflexivity].
Qed.

(** Inserting a record into a sorted list puts it after the records of its
    own timestamp and moves no other. *)
Lemma insert_by_timestamp_stable (t : float) (r : PacketRecord) (l : list PacketRecord) :
  ts_sorted l ->
  filter (fun x => same_time (timestamp x) t = true) (insert_by_timestamp r l)
  = filter (fun x => same_time (timestamp x) t = true) l
    ++ (if same_time (timestamp r) t then [r] else []).
Proof.
  unfold ts_sorted. intros Hs.
  apply Sorted_StronglySorted in Hs; [| intros a b c; apply ts_le_trans].
  induction Hs as [| h rest Hrest IH Hall]; simpl.
  - rewrite filter_cons, filter_nil.
    destruct (decide _) as [E | E]; [rewrite E; reflexivity |].
    apply not_true_is_false in E. rewrite E. reflexivity.
  - destruct (ts_le (timestamp h) (timestamp r)) eqn:Ehr.
    + rewrite !filter_cons, IH. destruct (decide _); reflexivity.
    + rewrite (filter_cons _ r).
      destruct (decide (same_time (timestamp r) t = true)) as [E | E].
      * rewrite E.
        rewrite (filter_none (fun x => same_time (timestamp x) t = true) (h :: rest));
          [reflexivity |].
        assert (Hh : forall x, ts_le (timestamp h) (timestamp x) = true ->
                     ~ same_time (timestamp x) t = true).
        { intros x Hhx Hx. unfold same_time in E, Hx.
          apply andb_true_iff in E as [_ Etr], Hx as [Hxt _].
          rewrite (ts_le_trans _ _ _ Hhx (ts_le_trans _ _ _ Hxt Etr)) in Ehr.
          discriminate. }
        constructor.
        -- apply Hh. destruct (ts_le (timestamp h) (timestamp h)) eqn:R; [reflexivity |].
           pose proof (ts_le_total _ _ R) as R'. congruence.
        -- eapply Forall_impl; [exact Hall |]. intros x Hx. apply Hh, Hx.
      * apply not_true_is_false in E. rewrite E, app_nil_r. reflexivity.
Qed.

Lemma sort_values_from_stable (t : float) (df : list PacketRecord) :
  forall acc, ts_sorted acc ->
  filter (fun x => same_time (timestamp x) t = true)
         (foldl (fun a r => insert_by_timestamp r a) acc df)
  = filter (fun x => same_time (timestamp x) t = true) (acc ++ df).
Proof.
  induction df as [| r rest IH]; intros acc Hs; simpl.
  - rewrite app_nil_r. reflexivity.
  - rewrite IH by (apply insert_by_timestamp_sorted, Hs).
    rewrite !filter_app, insert_by_timestamp_stable by exact Hs.
    rewrite <- app_assoc. f_equal. rewrite filter_cons.
    destruct (decide _) as [E | E]; [rewrite E; reflexivity |].
    apply not_true_is_false in E. rewrite E. reflexivity.
Qed.

(** The processed view is the window view sorted by timestamp (NaN last),
    and the sort is stable: the view has the rows of the input, all of them
    and no other, in nondecreasing order of timestamp, whether or not the
    input was found monotonic; the rows of one timestamp keep the order they
    had in the input; an input that is monotonic comes back in its own
    order; and the features table has one row for each row of the input. *)
Theorem engineer_features_sorts_by_timestamp (B : builtins) (p : t)
    (df : list PacketRecord) :
  let view := row_record <$> snd (engineer_features B p (Some df)) in
  Permutation view df /\
  ts_sorted view /\
  (forall t : float,
     filter (fun r => same_time (timestamp r) t = true) view
     = filter (fun r => same_time (timestamp r) t = true) df) /\
  (is_monotonic_increasing (timestamp <$> df) = true -> view = df) /\
  length (fst (engineer_features B p (Some df))) = length df.
Proof.
  cbv zeta. destruct df as [| r rest].
  - simpl. repeat split; constructor.
  - destruct (engineer_features_rows B p r rest) as (Hrec & _ & Hlen).
    rewrite Hrec, Hlen.
    destruct (sort_values_from (r :: rest) [] ltac:(constructor)) as [Hs Hp].
    split; [exact Hp |]. split; [exact Hs |].
    split; [intros t; apply (sort_values_from_stable t (r :: rest) []); constructor |].
    split; [apply sort_values_monotonic |].
    reflexivity.
Qed.

Lemma sub_sorted_finite (a b : float) :
  Float.isfinite a = true -> Float.isfinite b = true -> ts_le a b = true ->
  Float.isfinite (Float.sub b a) = true /\
  Float.ltb (Float.sub b a) Float.zero = false.
Proof.
  destruct a as [| | | x], b as [| | | y]; simpl; try discriminate.
  intros _ _ H. split; [reflexivity |].
  unfold Float.Qltb. apply negb_false_iff, Qle_bool_iff.
  apply Qle_bool_iff in H. rewrite Qred_correct. lra.
Qed.

Lemma time_diffs_after (later : list PacketRecord) :
  forall a : PacketRecord,
  ts_sorted (a :: later) ->
  Forall (fun r => Float.isfinite (timestamp r) = true) (a :: later) ->
  Forall (fun d => Float.isfinite d = true /\ Float.ltb d Float.zero = false)
         (zip_with Float.sub (timestamp <$> later) (timestamp a :: (timestamp <$> later))).
Proof.
  unfold ts_sorted. induction later as [| b rest IH]; intros a Hs Hf; [constructor |].
  rewrite fmap_cons. simpl.
  apply Sorted_inv in Hs as [Hs Hhd]. apply HdRel_inv in Hhd.
  apply Forall_cons in Hf as [Hfa Hf]. pose proof Hf as Hf'.
  apply Forall_cons in Hf' as [Hfb _].
  constructor; [apply sub_sorted_finite; assumption |].
  apply IH; assumption.
Qed.

(** Whatever the order of the input rows, if every timestamp is finite
    then no [time_diff] of the processed view is NaN and none is negative.
    (Nothing is said of its size: the difference of two finite timestamps
    of opposite signs can exceed the largest float and come out as
    infinity.) *)
Theorem engineer_features_time_diff_nonnegative (B : builtins) (p : t)
    (df : list PacketRecord) :
  Forall (fun r => Float.isfinite (timestamp r) = true) df ->
  Forall (fun row => Float.isnan (row_time_diff row) = false /\
                     Float.ltb (row_time_diff row) Float.zero = false)
         (snd (engineer_features B p (Some df))).
Proof.
  intros Hf. destruct df as [| r rest]; [constructor |].
  destruct (engineer_features_rows B p r rest) as (_ & Htd & _).
  apply (proj1 (Forall_fmap row_time_diff
                  (fun d => Float.isnan d = false /\ Float.ltb d Float.zero = false) _)).
  rewrite Htd.
  destruct (sort_values_from (r :: rest) [] ltac:(constructor)) as [Hs Hp].
  simpl in Hp.
  assert (Hf' : Forall (fun r => Float.isfinite (timestamp r) = true) (sort_values (r :: rest))).
  { rewrite Forall_forall in *. intros x Hx. apply Hf.
    rewrite <- Hp. exact Hx. }
  fold (sort_values (r :: rest)) in Hs.
  destruct (sort_values (r :: rest)) as [| a later]; [constructor |].
  rewrite fmap_cons. simpl. constructor; [split; reflexivity |].
  eapply Forall_impl; [apply time_diffs_after; eassumption |].
  intros d [Hd Hn]. split; [destruct d; try discriminate; reflexivity | exact Hn].
Qed.

Lemma engineer_features_time_diff_witness :
  Forall (fun r => Float.isfinite (timestamp r) = true)
         [Demo.rec_late; Demo.rec_a] /\
  (row_time_diff <$> snd (engineer_features Demo.env (init ∅ 4)
                            (Some [Demo.rec_late; Demo.rec_a])))
  = [Float.zero; Float.Fin 7] /\
  Forall (fun row => Float.isnan (row_time_diff row) = false /\
                     Float.ltb (row_time_diff row) Float.zero = false)
         (snd (engineer_features Demo.env (init ∅ 4) (Some [Demo.rec_late; Demo.rec_a]))).
Proof.
  assert (H : Forall (fun r => Float.isfinite (timestamp r) = true)
                     [Demo.rec_late; Demo.rec_a])
    by (repeat constructor).
  split; [exact H |]. split; [vm_compute; reflexivity |].
  exact (engineer_features_time_diff_nonnegative Demo.env (init ∅ 4) _ H).
Defined.

End BatchFacts.
(** ** The incremental path and the batch path side by side *)

Section TwoPathsFacts.
Import PacketProcessor.






Lemma nondecreasing_cons (a : float) (ts : list float) :
  nondecreasing (a :: ts) = true ->
  nondecreasing ts = true /\
  match ts with [] => True | b :: _ => Float.leb a b = true end.
Proof.
  destruct ts as [| b rest]; [auto |].
  cbn [nondecreasing]. intros H. apply andb_true_iff in H as [H1 H2]. auto.
Qed.












End TwoPathsFacts.
(** ** The trailing-window port count on a stream *)

Section StreamPortFacts.
Import PacketProcessor.

Lemma Qltb_false (q c : Q) : Float.Qltb q c = false <-> (c <= q)%Q.
Proof. unfold Float.Qltb. rewrite negb_false_iff. apply Qle_bool_iff. Qed.

Lemma update_unique_dports_eq (active : gmap string (gmap Z float))
    (ts : float) (src : string) (port : Z) :
  let ports :=
    filter (fun kv : Z * float => Float.ltb (snd kv) (Float.sub ts (Float.of_int 15)) = false)
           (<[port := ts]> (default ∅ (active !! src))) in
  _update_unique_dports active ts src port = (size ports, <[src := ports]> active).
Proof.
  cbv zeta. unfold _update_unique_dports.
  destruct (decide (<[port := ts]> (default ∅ (active !! src)) = ∅)) as [E | _];
    [exfalso; exact (insert_non_empty _ _ _ E) |].
  destruct (decide (filter _ _ = ∅)) as [E | _]; [| reflexivity].
  exfalso.
  assert (Hin : filter (fun kv : Z * float =>
                  Float.ltb (snd kv) (Float.sub ts (Float.of_int 15)) = false)
                  (<[port := ts]> (default ∅ (active !! src))) !! port = Some ts).
  { apply map_lookup_filter_Some. split; [apply lookup_insert_eq | apply ltb_own_cutoff]. }
  rewrite E, lookup_empty in Hin. discriminate.
Qed.

Lemma compute_incremental_ports (B : builtins) (p p' : t) (r : PacketRecord)
    (fv : FeatureVector) :
  _compute_incremental_features B p r = Ok (fv, p') ->
  let ports :=
    filter (fun kv : Z * float =>
              Float.ltb (snd kv) (Float.sub (timestamp r) (Float.of_int 15)) = false)
           (<[dport r := timestamp r]> (default ∅ (_active_ports p !! src_ip r))) in
  f_unique_dports_15s fv = Float.of_nat (size ports) /\
  _active_ports p' = <[src_ip r := ports]> (_active_ports p).
Proof.
  intros H. apply compute_incremental_inv in H as (lg & _ & _ & _ & _ & -> & ->).
  pose proof (update_unique_dports_eq (_active_ports p) (timestamp r) (src_ip r) (dport r))
    as Hu.
  cbv zeta in Hu. cbn [f_unique_dports_15s _active_ports]. rewrite Hu.
  split; reflexivity.
Qed.

Lemma on_grid_finite (k : nat) (x : float) :
  Float.on_grid k x -> Float.isfinite x = true.
Proof. intros (z & q & _ & -> & _). reflexivity. Qed.

Lemma last_sightings_snoc (h : list PacketRecord) (r : PacketRecord) (src : string) :
  last_sightings (h ++ [r]) src
  = if decide (src_ip r = src) then <[dport r := timestamp r]> (last_sightings h src)
    else last_sightings h src.
Proof. unfold last_sightings. rewrite foldl_snoc. reflexivity. Qed.

Lemma last_sightings_from (h : list PacketRecord) (src : string) (port : Z) (x : float) :
  last_sightings h src !! port = Some x ->
  exists r, r ∈ h /\ src_ip r = src /\ dport r = port /\ timestamp r = x.
Proof.
  induction h as [| r h IH] using rev_ind; intros H.
  - unfold last_sightings in H. simpl in H. rewrite lookup_empty in H. discriminate.
  - rewrite last_sightings_snoc in H.
    assert (Hold : last_sightings h src !! port = Some x ->
                   exists r0, r0 ∈ h ++ [r] /\ src_ip r0 = src /\ dport r0 = port
                              /\ timestamp r0 = x).
    { intros Hl. destruct (IH Hl) as (r0 & Hin & Hrest).
      exists r0. split; [apply elem_of_app; left; exact Hin | exact Hrest]. }
    destruct (decide (src_ip r = src)) as [Hs | _]; [| exact (Hold H)].
    destruct (decide (port = dport r)) as [-> | Hne].
    + rewrite lookup_insert_eq in H. injection H as <-.
      exists r. split; [apply elem_of_app; right; apply list_elem_of_singleton; reflexivity |].
      auto.
    + rewrite lookup_insert_ne in H by congruence. exact (Hold H).
Qed.

Lemma ports_pruned_nil (hi : Q) : ports_pruned [] ∅ hi.
Proof.
  split; [| split].
  - intros r Hr. apply elem_of_nil in Hr. contradiction.
  - intros r Hr. apply elem_of_nil in Hr. contradiction.
  - intros src. exists (hi - 15)%Q. split; [apply Qle_refl |].
    rewrite lookup_empty. unfold last_sightings. simpl. rewrite map_filter_empty. reflexivity.
Qed.

Lemma ports_pruned_step (h : list PacketRecord) (active : gmap string (gmap Z float))
    (hi t : Q) (r : PacketRecord) :
  ports_pruned h active hi ->
  timestamp r = Float.Fin t ->
  (hi <= t)%Q ->
  let ports :=
    filter (fun kv : Z * float =>
              Float.ltb (snd kv) (Float.sub (timestamp r) (Float.of_int 15)) = false)
           (<[dport r := timestamp r]> (default ∅ (active !! src_ip r))) in
  ports = filter (fun kv : Z * float =>
                    Float.ltb (snd kv) (Float.Fin (Qred (t - inject_Z 15))) = false)
                 (last_sightings (h ++ [r]) (src_ip r)) /\
  ports_pruned (h ++ [r]) (<[src_ip r := ports]> active) t.
Proof.
  intros (H1 & H2 & H3) Ht Hle. cbv zeta. rewrite Ht.
  change (Float.sub (Float.Fin t) (Float.of_int 15)) with (Float.Fin (Qred (t - inject_Z 15))).
  set (keep := fun kv : Z * float =>
                 Float.ltb (snd kv) (Float.Fin (Qred (t - inject_Z 15))) = false).
  assert (Hports : filter keep (<[dport r := Float.Fin t]> (default ∅ (active !! src_ip r)))
                   = filter keep (last_sightings (h ++ [r]) (src_ip r))).
  { rewrite last_sightings_snoc, decide_True by reflexivity. rewrite Ht.
    destruct (H3 (src_ip r)) as (c & Hc & HT). rewrite HT.
    apply map_eq. intros port. apply option_eq. intros x.
    rewrite !map_lookup_filter_Some.
    destruct (decide (port = dport r)) as [-> | Hne].
    - rewrite !lookup_insert_eq. reflexivity.
    - rewrite !lookup_insert_ne by congruence. rewrite map_lookup_filter_Some. split.
      + intros [[Hl _] Hk]. auto.
      + intros [Hl Hk]. split; [split; [exact Hl |] | exact Hk].
        destruct (last_sightings_from _ _ _ _ Hl) as (r0 & Hr0 & _ & _ & Hts).
        destruct (H1 r0 Hr0) as (q & Hq & Hqle). rewrite Hq in Hts. subst x.
        subst keep. cbn [snd Float.ltb] in *.
        apply Qltb_false. apply Qltb_false in Hk. rewrite Qred_correct in Hk.
        unfold inject_Z in Hk. lra. }
  split; [exact Hports |]. split; [| split].
  - intros r' Hr'. apply elem_of_app in Hr' as [Hr' | Hr'].
    + destruct (H1 r' Hr') as (q & Hq & Hqle). exists q. split; [exact Hq | lra].
    + apply list_elem_of_singleton in Hr' as ->. exists t. split; [exact Ht | lra].
  - intros r' Hr'. rewrite last_sightings_snoc, Ht.
    apply elem_of_app in Hr' as [Hr' | Hr'].
    + destruct (H2 r' Hr') as (q & qr & Hl & Hq & Hqle).
      destruct (H1 r' Hr') as (qr' & Hq' & Hhi).
      destruct (decide (src_ip r = src_ip r')) as [Hs | Hs]; [| eauto].
      destruct (decide (dport r' = dport r)) as [Hd | Hd].
      * rewrite Hd, lookup_insert_eq. exists t, qr'. split; [reflexivity |].
        split; [exact Hq' | lra].
      * rewrite lookup_insert_ne by congruence. eauto.
    + apply list_elem_of_singleton in Hr' as ->.
      rewrite decide_True by reflexivity. rewrite lookup_insert_eq.
      exists t, t. split; [reflexivity |]. split; [exact Ht | lra].
  - intros src. destruct (decide (src = src_ip r)) as [-> | Hne].
    + exists (Qred (t - inject_Z 15)). split.
      * rewrite Qred_correct. unfold inject_Z. lra.
      * rewrite lookup_insert_eq. exact Hports.
    + destruct (H3 src) as (c & Hc & HT). exists c. split; [lra |].
      rewrite lookup_insert_ne by congruence.
      rewrite last_sightings_snoc, decide_False by congruence. exact HT.
Qed.

(** The size of a pruned table is the number of distinct ports among the
    sightings of the source that are not older than the cutoff. *)
Lemma count_as_nunique (H : list PacketRecord) (active : gmap string (gmap Z float))
    (hi cut : Q) (r : PacketRecord) :
  ports_pruned H active hi ->
  r ∈ H ->
  Float.geb (timestamp r) (Float.Fin cut) = true ->
  nunique_dports (filter (fun x => Float.geb (timestamp x) (Float.Fin cut) = true) H)
                 (src_ip r)
  = Some (size (filter (fun kv : Z * float => Float.ltb (snd kv) (Float.Fin cut) = false)
                       (last_sightings H (src_ip r)))).
Proof.
  intros (H1 & H2 & _) Hr Hgeb. unfold nunique_dports.
  set (rows := filter (fun r0 => src_ip r0 = src_ip r)
                 (filter (fun x => Float.geb (timestamp x) (Float.Fin cut) = true) H)).
  assert (Hin : r ∈ rows).
  { subst rows. apply list_elem_of_filter. split; [reflexivity |].
    apply list_elem_of_filter. split; [exact Hgeb | exact Hr]. }
  assert (Hsize : size (list_to_set (dport <$> rows) : gset Z)
                  = size (filter (fun kv : Z * float =>
                                    Float.ltb (snd kv) (Float.Fin cut) = false)
                                 (last_sightings H (src_ip r)))).
  { rewrite <- (size_dom (D := gset Z)). f_equal. apply set_eq. intros port.
    rewrite elem_of_list_to_set, list_elem_of_fmap, elem_of_dom. split.
    - intros (r0 & -> & Hr0). subst rows.
      apply list_elem_of_filter in Hr0 as [Hs Hr0].
      apply list_elem_of_filter in Hr0 as [Hg Hr0].
      destruct (H2 r0 Hr0) as (q & qr & Hl & Hq & Hqle).
      exists (Float.Fin q). apply map_lookup_filter_Some.
      split; [rewrite <- Hs; exact Hl |].
      rewrite Hq in Hg. cbn [snd Float.ltb]. unfold Float.geb in Hg. cbn [Float.leb] in Hg.
      apply Qltb_false. apply Qle_bool_iff in Hg. lra.
    - intros [x Hx]. apply map_lookup_filter_Some in Hx as [Hl Hk].
      destruct (last_sightings_from _ _ _ _ Hl) as (r0 & Hr0 & Hs & Hd & Hts).
      exists r0. split; [symmetry; exact Hd |]. subst rows.
      apply list_elem_of_filter. split; [exact Hs |].
      apply list_elem_of_filter. split; [| exact Hr0].
      destruct (H1 r0 Hr0) as (q & Hq & _). rewrite Hq in *. subst x.
      cbn [snd Float.ltb] in Hk. unfold Float.geb. cbn [Float.leb].
      apply Qle_bool_iff. apply Qltb_false in Hk. exact Hk. }
  destruct rows as [| x xs] eqn:E.
  - apply elem_of_nil in Hin. contradiction.
  - f_equal. exact Hsize.
Qed.

Lemma extract_all_counts (B : builtins) (now : float) (rest : list PacketRecord) :
  forall (p : t) (h : list PacketRecord) (hi : Q),
  window_consistent p ->
  ports_pruned h (_active_ports p) hi ->
  Forall (fun x => Float.isfinite (timestamp x) = true) rest ->
  Forall (fun x => float_fields x = true) rest ->
  nondecreasing (Float.Fin hi :: (timestamp <$> rest)) = true ->
  exists fvs p',
    extract_all B now p rest = Ok (fvs, p') /\
    length fvs = length rest /\
    forall i r fv,
      rest !! i = Some r -> fvs !! i = Some fv ->
      exists n,
        nunique_dports
          (filter (fun x => Float.geb (timestamp x)
                              (Float.sub (timestamp r) (Float.of_int 15)) = true)
                  (h ++ take (S i) rest))
          (src_ip r) = Some n /\
        f_unique_dports_15s fv = Float.of_nat n.
Proof.
  induction rest as [| r0 rest IH]; intros p h hi Hc Hinv Hf Hff Hs.
  - exists [], p. split; [reflexivity |]. split; [reflexivity |].
    intros i r fv Hr. rewrite lookup_nil in Hr. discriminate.
  - apply Forall_cons in Hf as [Hfin Hf]. apply Forall_cons in Hff as [Hff0 Hff].
    destruct (timestamp r0) as [| | | t] eqn:Ht; try discriminate.
    rewrite fmap_cons, Ht in Hs.
    apply nondecreasing_cons in Hs as [Hs Hle]. cbn [Float.leb] in Hle.
    apply Qle_bool_iff in Hle.
    destruct (wf_to_list _ (proj1 Hc)) as [items Hlist].
    destruct (extract_features_as_dict_step B now p r0 items Hff0 Hc Hlist)
      as (fv0 & p1 & p0 & Hx & Hi & _ & Hap & _ & _ & Hc1).
    destruct (compute_incremental_ports B p p0 r0 fv0 Hi) as [Hu Hact].
    destruct (ports_pruned_step h (_active_ports p) hi t r0 Hinv Ht Hle) as [Hports Hinv'].
    rewrite <- Hact, <- Hap in Hinv'.
    destruct (IH p1 (h ++ [r0]) t Hc1 Hinv' Hf Hff Hs) as (fvs & p' & Hall & Hlen & Hrows).
    exists (fv0 :: fvs), p'. split; [| split].
    + cbn [extract_all]. rewrite Hx. cbn [mbind result_bind]. rewrite Hall. reflexivity.
    + simpl. rewrite Hlen. reflexivity.
    + intros [| j] r fv Hr Hfv; simpl in Hr, Hfv.
      * injection Hr as <-. injection Hfv as <-.
        eexists. split; [| exact Hu].
        rewrite Hports, Ht.
        change (Float.sub (Float.Fin t) (Float.of_int 15))
          with (Float.Fin (Qred (t - inject_Z 15))).
        change (take 1 (r0 :: rest)) with [r0].
        apply (count_as_nunique (h ++ [r0]) (_active_ports p1) t).
        -- exact Hinv'.
        -- apply elem_of_app. right. apply list_elem_of_singleton. reflexivity.
        -- rewrite Ht. unfold Float.geb. cbn [Float.leb]. apply Qle_bool_iff.
           rewrite Qred_correct. unfold inject_Z. lra.
      * destruct (Hrows j r fv Hr Hfv) as (n & Hn & Hv).
        exists n. split; [| exact Hv].
        rewrite <- app_assoc in Hn. exact Hn.
Qed.

(** On a stream that arrives in timestamp order, [unique_dports_15s] is
    what its name says: when records whose timestamps are nondecreasing and
    on one grid of step [2^-k], [k <= 49], and whose protocol, size and
    destination port convert to floats, are given one by one to
    [extract_features] on a processor whose port table is empty, no call
    raises, and the value reported for each record is the number of distinct
    destination ports among the records up to and including it that come
    from its source and are at most 15 seconds older, however many of them
    the window still holds.  On such a grid the cutoff [timestamp - 15] of
    each record is a binary64 number, computed without rounding; off it the
    code compares with the rounded cutoff, and a sighting within one
    rounding step of 15 seconds old can be counted or dropped differently. *)
Theorem unique_dports_counts_trailing_ports (B : builtins) (now : float) (p : t)
    (k : nat) (rs : list PacketRecord) :
  window_consistent p ->
  _active_ports p = ∅ ->
  k <= 49 ->
  Forall (fun x => Float.on_grid k (timestamp x)) rs ->
  Forall (fun x => float_fields x = true) rs ->
  nondecreasing (timestamp <$> rs) = true ->
  exists fvs p',
    extract_all B now p rs = Ok (fvs, p') /\
    length fvs = length rs /\
    forall i r fv,
      rs !! i = Some r -> fvs !! i = Some fv ->
      (exists q, Float.sub (timestamp r) (Float.of_int 15) = Float.Fin q /\
                 Float.dyadic53 q) /\
      exists n,
        nunique_dports
          (filter (fun x => Float.geb (timestamp x)
                              (Float.sub (timestamp r) (Float.of_int 15)) = true)
                  (take (S i) rs))
          (src_ip r) = Some n /\
        f_unique_dports_15s fv = Float.of_nat n.
Proof.
  intros Hc Hact Hk Hg Hff Hs.
  assert (Hf : Forall (fun x => Float.isfinite (timestamp x) = true) rs).
  { eapply Forall_impl; [exact Hg |]. intros x. apply on_grid_finite. }
  assert (Hcounts : exists fvs p',
            extract_all B now p rs = Ok (fvs, p') /\
            length fvs = length rs /\
            forall i r fv,
              rs !! i = Some r -> fvs !! i = Some fv ->
              exists n,
                nunique_dports
                  (filter (fun x => Float.geb (timestamp x)
                                      (Float.sub (timestamp r) (Float.of_int 15)) = true)
                          (take (S i) rs))
                  (src_ip r) = Some n /\
                f_unique_dports_15s fv = Float.of_nat n).
  { destruct rs as [| r0 rest].
    - exists [], p. split; [reflexivity |]. split; [reflexivity |].
      intros i r fv Hr. rewrite lookup_nil in Hr. discriminate.
    - pose proof Hf as Hf0. apply Forall_cons in Hf0 as [Hfin _].
      destruct (timestamp r0) as [| | | t] eqn:Ht; try discriminate.
      assert (Hinv : ports_pruned [] (_active_ports p) t)
        by (rewrite Hact; apply ports_pruned_nil).
      assert (Hs' : nondecreasing (Float.Fin t :: (timestamp <$> r0 :: rest)) = true).
      { rewrite fmap_cons, Ht in *. cbn [nondecreasing] in *.
        apply andb_true_iff. split; [| exact Hs].
        cbn [Float.leb]. apply Qle_bool_iff. apply Qle_refl. }
      exact (extract_all_counts B now (r0 :: rest) p [] t Hc Hinv Hf Hff Hs'). }
  destruct Hcounts as (fvs & p' & Hall & Hlen & Hrows).
  exists fvs, p'. split; [exact Hall |]. split; [exact Hlen |].
  intros i r fv Hr Hfv. split; [| exact (Hrows i r fv Hr Hfv)].
  apply (on_grid_cutoff k _ Hk).
  rewrite Forall_forall in Hg. apply Hg. eapply list_elem_of_lookup_2. exact Hr.
Qed.

Lemma unique_dports_counts_trailing_ports_witness :
  window_consistent (init ∅ 4) /\
  Forall (fun x => Float.on_grid 0 (timestamp x)) [Demo.rec_a; Demo.rec_late] /\
  Forall (fun x => float_fields x = true) [Demo.rec_a; Demo.rec_late] /\
  nondecreasing (timestamp <$> [Demo.rec_a; Demo.rec_late]) = true /\
  exists fvs p',
    extract_all Demo.env Float.zero (init ∅ 4) [Demo.rec_a; Demo.rec_late] = Ok (fvs, p') /\
    length fvs = 2.
Proof.
  assert (H1 : window_consistent (init ∅ 4)) by apply init_consistent.
  assert (H2 : nondecreasing (timestamp <$> [Demo.rec_a; Demo.rec_late]) = true)
    by reflexivity.
  assert (H3 : Forall (fun x => Float.on_grid 0 (timestamp x)) [Demo.rec_a; Demo.rec_late]).
  { repeat constructor.
    - exists 100%Z, 100%Q. split; [lia |]. split; reflexivity.
    - exists 107%Z, 107%Q. split; [lia |]. split; reflexivity. }
  assert (H4 : Forall (fun x => float_fields x = true) [Demo.rec_a; Demo.rec_late])
    by (repeat constructor).
  assert (H5 : 0 <= 49) by lia.
  split; [exact H1 |]. split; [exact H3 |]. split; [exact H4 |]. split; [exact H2 |].
  destruct (unique_dports_counts_trailing_ports Demo.env Float.zero (init ∅ 4) 0
              [Demo.rec_a; Demo.rec_late] H1 eq_refl H5 H3 H4 H2)
    as (fvs & p' & Hall & Hlen & _).
  exists fvs, p'. split; [exact Hall | exact Hlen].
Defined.

End StreamPortFacts.
(** ** The newest packet in the batch view *)

Section WindowViewFacts.
Import PacketProcessor.













End WindowViewFacts.
(** ** Reading the fields and storing the record *)

Section FieldFacts.
Import PacketProcessor.

Lemma extract_features_split (B : builtins) (now : float) (p : t)
    (packet : gmap string pyval) :
  extract_features B now p (Some packet)
  = (r ← read_fields B now packet; store_record B p r).
Proof.
  unfold extract_features, read_fields, store_record. cbv zeta.
  do 5 (match goal with
        | |- (?c ≫= _) = _ => destruct c; [| reflexivity]; cbn [mbind result_bind]
        end).
  reflexivity.
Qed.

Lemma read_fields_as_dict (B : builtins) (now : float) (r : PacketRecord) :
  read_fields B now (as_dict r) = Ok r.
Proof.
  destruct (as_dict_lookup r) as (L1 & L2 & L3 & L4 & L5 & L6 & L7).
  unfold read_fields, get, get_or. rewrite L1, L2, L3, L4, L5, L6, L7.
  destruct r. reflexivity.
Qed.

Lemma store_record_returns (B : builtins) (p : t) (r : PacketRecord) :
  window_consistent p ->
  if float_fields r
  then exists fv p', store_record B p r = Ok (fv, p')
  else store_record B p r = Raise (OverflowError "int too large to convert to float").
Proof.
  intros Hc.
  assert (Hsame : extract_features B Float.zero p (Some (as_dict r)) = store_record B p r).
  { rewrite extract_features_split, read_fields_as_dict. reflexivity. }
  rewrite <- Hsame.
  destruct (wf_to_list _ (proj1 Hc)) as [items Hlist].
  destruct (float_fields r) eqn:E;
    [| exact (extract_features_as_dict_raises B Float.zero p r items E Hc Hlist)].
  destruct (extract_features_as_dict_step B Float.zero p r items E Hc Hlist)
    as (fv & p' & _ & Hx & _).
  eauto.
Qed.

(** [extract_features] reads before it writes. On a processor whose window
    is consistent, if one of the five conversions of the fields raises
    ([float] of the timestamp, [int] of protocol, size and ports), the call
    raises that error. Otherwise it does what it does for the [as_dict] of
    the record made of the fields read, whatever keys and value types the
    mapping used for them, and reading that [as_dict] gives the record back;
    the half that takes a record object, fills it, appends it and computes
    the features returns when protocol, size and destination port convert to
    floats, and raises [OverflowError] when one of them is too large for a
    float. *)
Theorem extract_features_reads_then_stores (B : builtins) (now : float) (p : t)
    (packet : gmap string pyval) :
  window_consistent p ->
  match read_fields B now packet with
  | Raise e => extract_features B now p (Some packet) = Raise e
  | Ok r =>
      read_fields B now (as_dict r) = Ok r /\
      extract_features B now p (Some packet)
      = extract_features B now p (Some (as_dict r)) /\
      if float_fields r
      then exists fv p', extract_features B now p (Some packet) = Ok (fv, p')
      else extract_features B now p (Some packet)
           = Raise (OverflowError "int too large to convert to float")
  end.
Proof.
  intros Hc. rewrite extract_features_split.
  destruct (read_fields B now packet) as [r | e] eqn:Hr; [| reflexivity].
  cbn [mbind result_bind].
  split; [apply read_fields_as_dict |].
  split; [rewrite extract_features_split, read_fields_as_dict; reflexivity |].
  apply store_record_returns, Hc.
Qed.

Lemma extract_features_reads_then_stores_witness :
  window_consistent (init ∅ 2) /\
  read_fields Demo.env Float.zero Demo.packet_a = Ok Demo.rec_a /\
  extract_features Demo.env Float.zero (init ∅ 2) (Some Demo.packet_a)
  = extract_features Demo.env Float.zero (init ∅ 2) (Some (as_dict Demo.rec_a)).
Proof.
  assert (H1 : window_consistent (init ∅ 2)) by apply init_consistent.
  assert (H2 : read_fields Demo.env Float.zero Demo.packet_a = Ok Demo.rec_a)
    by (vm_compute; reflexivity).
  split; [exact H1 |]. split; [exact H2 |].
  pose proof (extract_features_reads_then_stores Demo.env Float.zero (init ∅ 2)
                Demo.packet_a H1) as H.
  rewrite H2 in H. exact (proj1 (proj2 H)).
Defined.

End FieldFacts.
(** ** Path strings *)












(** ** The hardened reader *)

Section DetectorFacts.
Import AnomalyDetector.

Lemma exists_of_file (fs : FS.t) (path : string) (f : file_content) :
  FS.files fs !! path = Some f -> FS.exists_ fs path = true.
Proof.
  intros H. unfold FS.exists_. rewrite H.
  rewrite bool_decide_eq_true_2 by eauto. reflexivity.
Qed.







(** Nor does the deny-list hold against a stream that empties it first: the
    reference to [posix.system] that follows is resolved, and the bundle is
    installed. *)
Lemma banned_reference_after_rebinding_loads :
  Global (mkRef "posix" "system" true) ∈ ops_of Demo.unlisting_file /\
  unpickler_load Demo.unlisting_file
  = Ok (PDict [("model", Demo.forest); ("scaler", Demo.std_scaler);
               ("feature_names", PList [PStr "f1"])]) /\
  fst (load_model Demo.fs_unlisting (init (5 # 100) 200 42) "/tmp/unlisting.pkl") = Ok ().
Proof.
  split; [do 5 apply list_elem_of_further; apply list_elem_of_here |].
  split; vm_compute; reflexivity.
Qed.

(** ** What [load_model] checks *)




(** ** Saving a bundle *)

Lemma mkstemp_fresh (fault : option exn) (names : list string) (fs fs' : FS.t)
    (prefix suffix dir tmp : string) :
  FS.mkstemp fault names fs prefix suffix dir = Ok (tmp, fs') ->
  FS.files fs !! tmp = None /\
  fs' = FS.with_files fs (<[tmp := empty_file]> (FS.files fs)) /\
  exists n, n ∈ names /\ tmp = path_join dir (prefix +:+ n +:+ suffix).
Proof.
  unfold FS.mkstemp. destruct fault; [discriminate |].
  destruct (negb _); [discriminate |].
  destruct (filter _ names) as [| n rest] eqn:Hfilter; [discriminate |].
  intros H. injection H as <- <-.
  assert (Hn : n ∈ filter (fun n => FS.exists_ fs (path_join dir (prefix +:+ n +:+ suffix)) = false)
                          names)
    by (rewrite Hfilter; apply list_elem_of_here).
  apply list_elem_of_filter in Hn as [Hfree Hn].
  split; [| split; [reflexivity | eauto]].
  unfold FS.exists_ in Hfree. apply orb_false_iff in Hfree as [Hfile _].
  apply bool_decide_eq_false in Hfile.
  destruct (FS.files fs !! _) eqn:E; [exfalso; apply Hfile; eauto | reflexivity].
Qed.

Lemma blocking_None (fs : FS.t) (chain : list string) :
  FS.blocking fs chain = None <-> Forall (fun a => FS.files fs !! a = None) chain.
Proof.
  induction chain as [| a rest IH]; simpl; [split; [constructor | reflexivity] |].
  destruct (bool_decide_reflect (is_Some (FS.files fs !! a))) as [Hs | Hn].
  - split; [discriminate |]. intros H. apply Forall_cons in H as [Ha _].
    rewrite Ha in Hs. destruct Hs as [? ?]. discriminate.
  - rewrite IH. split.
    + intros H. constructor; [| exact H].
      destruct (FS.files fs !! a) eqn:E; [exfalso; apply Hn; eauto | reflexivity].
    + intros H. apply Forall_cons in H as [_ H]. exact H.
Qed.

Lemma blocking_same_files (fs fs' : FS.t) (chain : list string) :
  FS.files fs' = FS.files fs -> FS.blocking fs' chain = FS.blocking fs chain.
Proof.
  intros H. induction chain as [| a rest IH]; simpl; [reflexivity |].
  rewrite H, IH. reflexivity.
Qed.

Lemma makedirs_Ok_inv (fault : option exn) (fs fs' : FS.t) (name : string) :
  FS.makedirs fault fs name = Ok fs' ->
  fault = None /\ name <> "" /\
  FS.blocking fs (ancestors name ++ [name]) = None /\
  fs' = FS.with_dirs fs (ancestors name ++ [name]).
Proof.
  unfold FS.makedirs. destruct fault; [discriminate |].
  destruct (String.eqb_spec name ""); [discriminate |].
  destruct (FS.blocking fs _) as [[a [| b rest]] |]; [discriminate | discriminate |].
  intros H. injection H as <-. auto.
Qed.

Lemma makedirs_files (fault : option exn) (fs fs' : FS.t) (name : string) :
  FS.makedirs fault fs name = Ok fs' -> FS.files fs' = FS.files fs.
Proof. intros H. apply makedirs_Ok_inv in H as (_ & _ & _ & ->). reflexivity. Qed.

(** What a save that returns normally leaves at [path]. *)
Lemma save_model_Ok_inv (E : detector_env) (env : save_env) (trained_at : string)
    (fs fs' : FS.t) (self : t) (path : string) :
  save_model E env trained_at fs self path = (Ok (), fs') ->
  exists checksum,
    _feature_checksum E (feature_names self) = Ok checksum /\
    FS.files fs' !! path
    = Some (joblib_dump (dump_layout env) (bundle self trained_at checksum)).
Proof.
  unfold save_model. intros H.
  destruct (FS.makedirs _ fs _) as [fs1 | e1]; [| discriminate H].
  destruct (_feature_checksum E (feature_names self)) as [checksum | e2]; [| discriminate H].
  destruct (FS.mkstemp _ _ fs1 _ _ _) as [[tmp fs2] | e3]; [| discriminate H].
  unfold FS.write in H.
  destruct (dump_fault env) as [[e4 [partial |]] |]; [discriminate H | discriminate H |].
  unfold FS.replace in H.
  destruct (replace_fault env); [discriminate H |]. simpl in H.
  rewrite lookup_insert_eq in H.
  destruct (bool_decide _); [discriminate H |].
  injection H as <-. exists checksum. split; [reflexivity |]. simpl.
  apply lookup_insert_eq.
Qed.




(** A path without a directory part is never written: [os.makedirs] is
    called on the empty string and raises before anything is created. *)
Theorem save_model_bare_filename_raises (E : detector_env) (env : save_env)
    (trained_at : string) (fs : FS.t) (self : t) (path : string) :
  dirname path = "" ->
  makedirs_fault env = None ->
  save_model E env trained_at fs self path = (Raise (FileNotFoundError ""), fs).
Proof.
  intros Hdir Hfault. unfold save_model, FS.makedirs. rewrite Hdir, Hfault. reflexivity.
Qed.

Lemma save_model_bare_filename_witness :
  dirname "model.pkl" = "" /\
  save_model Demo.denv Demo.calm Demo.first_clock Demo.fs_empty Demo.trained "model.pkl"
  = (Raise (FileNotFoundError ""), Demo.fs_empty).
Proof.
  assert (H : dirname "model.pkl" = "") by reflexivity.
  split; [exact H |].
  exact (save_model_bare_filename_raises Demo.denv Demo.calm Demo.first_clock
           Demo.fs_empty Demo.trained "model.pkl" H eq_refl).
Defined.

(** ** Saving, loading and saving again *)

Lemma reader_accepts (cs : list (string * string)) :
  forallb (fun c => negb (banned (fst c) (snd c))) cs = true ->
  for_each read_op
    (concat ((fun c => [Global (mkRef (fst c) (snd c) true); Reduce Returns]) <$> cs))
    _BANNED_GLOBALS
  = Ok _BANNED_GLOBALS.
Proof.
  induction cs as [| c rest IH]; intros H; [reflexivity |].
  simpl in H. apply andb_true_iff in H as [Hc Hrest].
  apply negb_true_iff in Hc. unfold banned in Hc.
  rewrite fmap_cons. cbn [concat app]. cbn [for_each read_op].
  unfold find_class. cbn [ref_module ref_name importable].
  rewrite Hc. cbn [mbind result_bind]. apply IH, Hrest.
Qed.

Lemma bundle_classes (self : t) (trained_at checksum : string) :
  classes_of (bundle self trained_at checksum)
  = classes_of (model self) ++ classes_of (scaler self) ++ classes_of (feature_names self).
Proof. simpl. rewrite !app_nil_r. reflexivity. Qed.

(** A bundle written by [joblib.dump] for a detector whose classes are not
    on the deny-list is read back as it was written. *)
Lemma unpickle_dumped_bundle (layout : nat) (x : t) (trained_at checksum : string) :
  loadable x = true ->
  unpickler_load (joblib_dump layout (bundle x trained_at checksum))
  = Ok (bundle x trained_at checksum).
Proof.
  intros Hsafe. unfold unpickler_load, joblib_dump, ops_of.
  rewrite bundle_classes, reader_accepts by exact Hsafe. reflexivity.
Qed.

Lemma load_dumped_bundle (fs : FS.t) (x loader : t) (layout : nat)
    (path trained_at checksum : string) :
  FS.files fs !! path = Some (joblib_dump layout (bundle x trained_at checksum)) ->
  fitted x = true -> loadable x = true ->
  load_model fs loader path
  = (Ok (),
     {| model := model x; scaler := scaler x; feature_names := feature_names x;
        meta := [("contamination", PFloat (contamination x));
                 ("n_estimators", PInt (n_estimators x));
                 ("random_state", PInt (random_state x));
                 ("version", PStr MODEL_BUNDLE_VERSION);
                 ("trained_at", PStr trained_at);
                 ("feature_checksum", PStr checksum)];
        contamination := contamination loader;
        n_estimators := n_estimators loader;
        random_state := random_state loader |}).
Proof.
  intros Hf Hfit Hsafe. unfold load_model, _load_secure_payload.
  rewrite (exists_of_file _ _ _ Hf), Hf. simpl negb. cbv iota.
  rewrite (unpickle_dumped_bundle layout x trained_at checksum Hsafe).
  unfold fitted in Hfit. apply negb_true_iff in Hfit.
  unfold dict_get. cbn. rewrite Hfit. reflexivity.
Qed.

(** C5, as the code has it. A detector that loads the bundle of a fitted
    detector [x] and is saved again writes a file that deserializes to a
    bundle with [x]'s model, scaler and feature names and with the same
    [feature_checksum]; its [trained_at] is the clock reading of the second
    save, and its [contamination], [n_estimators] and [random_state] are the
    loading detector's. Nothing is said of the bytes: [trained_at] differs
    whenever the clock has moved, and the layout of the second file is the
    writer's choice. *)
Theorem resave_keeps_all_but_trained_at (E : detector_env) (env1 env2 : save_env)
    (t1 t2 : string) (fs fs1 fs2 : FS.t) (x loader : t) (path : string) :
  fitted x = true -> loadable x = true ->
  save_model E env1 t1 fs x path = (Ok (), fs1) ->
  save_model E env2 t2 fs1 (snd (load_model fs1 loader path)) path = (Ok (), fs2) ->
  fst (load_model fs1 loader path) = Ok () /\
  exists (checksum : string) (f1 f2 : file_content),
    _feature_checksum E (feature_names x) = Ok checksum /\
    FS.files fs1 !! path = Some f1 /\
    unpickler_load f1 = Ok (bundle x t1 checksum) /\
    FS.files fs2 !! path = Some f2 /\
    unpickler_load f2
    = Ok (bundle {| model := model x; scaler := scaler x;
                    feature_names := feature_names x; meta := meta x;
                    contamination := contamination loader;
                    n_estimators := n_estimators loader;
                    random_state := random_state loader |} t2 checksum).
Proof.
  intros Hfit Hsafe Hs1 Hs2.
  destruct (save_model_Ok_inv _ _ _ _ _ _ _ Hs1) as (checksum & Hsum & Hat).
  rewrite (load_dumped_bundle fs1 x loader _ path t1 checksum Hat Hfit Hsafe) in *.
  split; [reflexivity |].
  simpl in Hs2.
  destruct (save_model_Ok_inv _ _ _ _ _ _ _ Hs2) as (checksum2 & Hsum2 & Hat2).
  simpl in Hsum2. assert (checksum2 = checksum) as -> by congruence.
  eexists checksum, _, _. split; [exact Hsum |]. split; [exact Hat |].
  split; [apply unpickle_dumped_bundle, Hsafe |]. split; [exact Hat2 |].
  apply (unpickle_dumped_bundle (dump_layout env2)
           {| model := model x; scaler := scaler x;
              feature_names := feature_names x; meta := meta x;
              contamination := contamination loader;
              n_estimators := n_estimators loader;
              random_state := random_state loader |} t2 checksum).
  exact Hsafe.
Qed.

Lemma resave_keeps_all_but_trained_at_witness :
  fitted Demo.trained = true /\ loadable Demo.trained = true /\
  save_model Demo.denv Demo.calm Demo.first_clock Demo.fs_empty Demo.trained Demo.bundle_path
  = (Ok (), Demo.fs_saved) /\
  save_model Demo.denv Demo.calm Demo.first_clock Demo.fs_saved
    (snd (load_model Demo.fs_saved Demo.trained Demo.bundle_path)) Demo.bundle_path
  = (Ok (), Demo.fs_resaved_at_once) /\
  fst (load_model Demo.fs_saved Demo.trained Demo.bundle_path) = Ok ().
Proof.
  assert (H1 : fitted Demo.trained = true) by reflexivity.
  assert (H2 : loadable Demo.trained = true) by (vm_compute; reflexivity).
  assert (H3 : save_model Demo.denv Demo.calm Demo.first_clock Demo.fs_empty Demo.trained
                 Demo.bundle_path = (Ok (), Demo.fs_saved)) by (vm_compute; reflexivity).
  assert (H4 : save_model Demo.denv Demo.calm Demo.first_clock Demo.fs_saved
                 (snd (load_model Demo.fs_saved Demo.trained Demo.bundle_path))
                 Demo.bundle_path = (Ok (), Demo.fs_resaved_at_once))
    by (vm_compute; reflexivity).
  split; [exact H1 |]. split; [exact H2 |]. split; [exact H3 |]. split; [exact H4 |].
  exact (proj1 (resave_keeps_all_but_trained_at Demo.denv Demo.calm Demo.calm
                  Demo.first_clock Demo.first_clock Demo.fs_empty Demo.fs_saved
                  Demo.fs_resaved_at_once Demo.trained Demo.trained Demo.bundle_path
                  H1 H2 H3 H4)).
Defined.

(** C5, as the specification words it, fails when the clock has moved
    between the two saves: the detector saves, loads its own bundle and
    saves again five seconds later, every step succeeds, and the two files
    differ. *)
Lemma resave_later_differs :
  exists f1 f2 : file_content,
    save_model Demo.denv Demo.calm Demo.first_clock Demo.fs_empty Demo.trained Demo.bundle_path
    = (Ok (), Demo.fs_saved) /\
    load_model Demo.fs_saved Demo.trained Demo.bundle_path = (Ok (), Demo.reloaded) /\
    save_model Demo.denv Demo.calm Demo.later_clock Demo.fs_saved Demo.reloaded Demo.bundle_path
    = (Ok (), Demo.fs_resaved_later) /\
    FS.files Demo.fs_saved !! Demo.bundle_path = Some f1 /\
    FS.files Demo.fs_resaved_later !! Demo.bundle_path = Some f2 /\
    f1 <> f2.
Proof.
  eexists _, _.
  split; [vm_compute; reflexivity |]. split; [vm_compute; reflexivity |].
  split; [vm_compute; reflexivity |]. split; [vm_compute; reflexivity |].
  split; [vm_compute; reflexivity |].
  intros H. discriminate H.
Qed.

(** ** Resolving a model path *)


(** What a relative path that is accepted resolves to lies inside the
    model directory. *)
Lemma relative_accepted_is_inside (model_dir : Path.t) (fs fs' : FS.t)
    (path : string) (must_exist : bool) (resolved : Path.t) :
  Path.is_absolute (Path.of_string path) = false ->
  _resolve_model_path model_dir fs path must_exist = Ok (resolved, fs') ->
  Path.parts model_dir `prefix_of` Path.parts resolved.
Proof.
  intros Hrel H. unfold _resolve_model_path in H. rewrite Hrel in H.
  bind_inv H. unfold Path.relative_to, Path.is_relative_to in E.
  destruct (bool_decide (Path.parts model_dir `prefix_of` _)) eqn:Hp.
  - apply bool_decide_eq_true in Hp.
    destruct (bool_decide (_ = _)); simpl in E; [| discriminate].
    injection E as <-.
    destruct (must_exist && _); [discriminate |].
    bind_inv H. injection H as <- _. exact Hp.
  - rewrite andb_false_r in E. discriminate.
Qed.

Lemma relative_accepted_is_inside_witness :
  Path.is_absolute (Path.of_string "nightly/model.pkl") = false /\
  Path.parts Demo.model_dir
    `prefix_of` Path.parts (Path.resolve (Path.joinpath Demo.model_dir
                                            (Path.of_string "nightly/model.pkl"))).
Proof.
  assert (H1 : Path.is_absolute (Path.of_string "nightly/model.pkl") = false) by reflexivity.
  split; [exact H1 |].
  refine (relative_accepted_is_inside Demo.model_dir Demo.fs_empty _ "nightly/model.pkl"
            false _ H1 _).
  vm_compute. reflexivity.
Defined.



End DetectorFacts.

(** ** The feature checksum *)

Lemma string_app_assoc (a b c : string) : (a +:+ b) +:+ c = a +:+ (b +:+ c).
Proof.
  induction a as [| ch a IH]; [reflexivity |].
  change (String ch ((a +:+ b) +:+ c) = String ch (a +:+ (b +:+ c))).
  f_equal. exact IH.
Qed.

Section DetectorMoreFacts.
Import AnomalyDetector.

(** The checksum does not tell a name that contains a comma from the two
    names on either side of the comma. *)
Theorem feature_checksum_joins_on_comma (E : detector_env) (a b : string)
    (rest : list pyobj) :
  _feature_checksum E (PList (PStr (a +:+ "," +:+ b) :: rest))
  = _feature_checksum E (PList (PStr a :: PStr b :: rest)).
Proof.
  unfold _feature_checksum. cbn [py_truthy negb]. do 2 f_equal.
  rewrite !fmap_cons. cbn [py_str].
  destruct (py_str E <$> rest) as [| n names]; cbn [join_comma]; [reflexivity |].
  rewrite !string_app_assoc. reflexivity.
Qed.

(** ** What a failed load leaves behind *)

(** A file that cannot be read, or that holds no dictionary, leaves the
    detector as it was. A dictionary always replaces [model], [scaler] and
    [feature_names] by its entries ([None] for a missing one), also when the
    call then raises: after the load of an incomplete dictionary the
    detector is not fitted, whatever it was before. *)
Theorem load_model_state_after_failure (fs : FS.t) (self : t) (path : string)
    (f : file_content) :
  FS.files fs !! path = Some f ->
  (forall e, unpickler_load f = Raise e -> snd (load_model fs self path) = self) /\
  (forall v, unpickler_load f = Ok v -> (forall d, v <> PDict d) ->
     snd (load_model fs self path) = self) /\
  (forall payload, unpickler_load f = Ok (PDict payload) ->
     model (snd (load_model fs self path)) = dict_get payload "model" PNone /\
     scaler (snd (load_model fs self path)) = dict_get payload "scaler" PNone /\
     feature_names (snd (load_model fs self path)) = dict_get payload "feature_names" PNone /\
     fitted (snd (load_model fs self path)) = complete payload /\
     (complete payload = false ->
      exists e, fst (load_model fs self path) = Raise e)).
Proof.
  intros Hf. unfold load_model, _load_secure_payload.
  rewrite (exists_of_file _ _ _ Hf), Hf. simpl negb. cbv iota.
  split; [| split].
  - intros e He. rewrite He. destruct e; reflexivity.
  - intros v Hv Hnd. rewrite Hv.
    destruct v; try reflexivity. destruct (Hnd _ eq_refl).
  - intros payload Hp. rewrite Hp.
    destruct (py_dict (dict_get payload "meta" (PDict []))) as [m | e] eqn:Hm.
    + unfold fitted, complete. cbn [snd fst].
      destruct (is_None (dict_get payload "model" PNone)
                || is_None (dict_get payload "scaler" PNone)
                || is_None (dict_get payload "feature_names" PNone)) eqn:Hn;
        cbv beta iota delta [snd fst model scaler feature_names]; rewrite ?Hn.
      * split; [reflexivity |]. split; [reflexivity |]. split; [reflexivity |].
        split; [reflexivity |]. intros _. eexists. reflexivity.
      * split; [reflexivity |]. split; [reflexivity |]. split; [reflexivity |].
        split; [reflexivity |]. intros H. discriminate H.
    + unfold fitted, complete. cbv beta iota delta [snd fst model scaler feature_names].
      split; [reflexivity |]. split; [reflexivity |]. split; [reflexivity |].
      split; [reflexivity |]. intros _. eexists. reflexivity.
Qed.

Lemma load_model_state_after_failure_witness :
  FS.files Demo.fs_partial !! "/srv/models/partial.pkl" = Some Demo.partial_bundle /\
  fitted Demo.trained = true /\
  fitted (snd (load_model Demo.fs_partial Demo.trained "/srv/models/partial.pkl")) = false /\
  scaler (snd (load_model Demo.fs_partial Demo.trained "/srv/models/partial.pkl")) = PNone.
Proof.
  assert (H : FS.files Demo.fs_partial !! "/srv/models/partial.pkl"
              = Some Demo.partial_bundle) by (vm_compute; reflexivity).
  split; [exact H |]. split; [reflexivity |].
  destruct (load_model_state_after_failure Demo.fs_partial Demo.trained
              "/srv/models/partial.pkl" Demo.partial_bundle H) as (_ & _ & Hd).
  destruct (Hd [("model", Demo.forest); ("feature_names", PList [PStr "f1"])]
              ltac:(vm_compute; reflexivity)) as (_ & Hs & _ & Hfit & _).
  split; [rewrite Hfit; reflexivity | rewrite Hs; reflexivity].
Defined.

(** ** When the reader raises [SecurityError] *)




(** ** Metadata of a loaded bundle *)

(** After a fitted detector [x] with feature names [names] is saved and the
    bundle is loaded by another detector, [bundle_metadata] of that detector
    gives the names, their number and the checksum and [trained_at] written
    in the bundle, together with the parameters the loading detector was built
    with; the parameters written in the bundle are kept in [meta] and are not
    the ones reported. *)
Theorem bundle_metadata_after_load (E : detector_env) (env : save_env) (t1 : string)
    (fs fs1 : FS.t) (x loader : t) (path : string) (names : list pyobj) :
  fitted x = true -> loadable x = true ->
  feature_names x = PList names ->
  save_model E env t1 fs x path = (Ok (), fs1) ->
  exists (y : t) (checksum : string),
    load_model fs1 loader path = (Ok (), y) /\
    _feature_checksum E (PList names) = Ok checksum /\
    bundle_metadata E y
    = Ok (PDict [("version", PStr MODEL_BUNDLE_VERSION);
                 ("trained_at", PStr t1);
                 ("feature_names", PList names);
                 ("feature_count", PInt (Z.of_nat (length names)));
                 ("feature_checksum", PStr checksum);
                 ("params", PDict [("contamination", PFloat (contamination loader));
                                   ("n_estimators", PInt (n_estimators loader));
                                   ("random_state", PInt (random_state loader))])]) /\
    assoc "feature_checksum" (meta y) = Some (PStr checksum) /\
    assoc "contamination" (meta y) = Some (PFloat (contamination x)) /\
    assoc "n_estimators" (meta y) = Some (PInt (n_estimators x)) /\
    assoc "random_state" (meta y) = Some (PInt (random_state x)).
Proof.
  intros Hfit Hsafe Hnames Hsave.
  destruct (save_model_Ok_inv _ _ _ _ _ _ _ Hsave) as (checksum & Hsum & Hat).
  rewrite (load_dumped_bundle fs1 x loader _ path t1 checksum Hat Hfit Hsafe).
  eexists _, checksum. split; [reflexivity |].
  rewrite Hnames in Hsum. split; [exact Hsum |].
  unfold bundle_metadata. cbn [feature_names meta contamination n_estimators random_state].
  rewrite Hnames, Hsum.
  assert (Hl : list_or_empty (PList names) = Ok names).
  { unfold list_or_empty. destruct names; reflexivity. }
  rewrite Hl. split; [reflexivity |]. repeat split; reflexivity.
Qed.

Lemma bundle_metadata_after_load_witness :
  fitted Demo.trained = true /\ loadable Demo.trained = true /\
  exists y checksum,
    load_model Demo.fs_saved (init (1 # 10) 50 7) Demo.bundle_path = (Ok (), y) /\
    assoc "contamination" (meta y) = Some (PFloat (5 # 100)) /\
    contamination y = (1 # 10)%Q /\
    assoc "feature_checksum" (meta y) = Some (PStr checksum).
Proof.
  assert (H1 : fitted Demo.trained = true) by reflexivity.
  assert (H2 : loadable Demo.trained = true) by (vm_compute; reflexivity).
  assert (H3 : save_model Demo.denv Demo.calm Demo.first_clock Demo.fs_empty Demo.trained
                 Demo.bundle_path = (Ok (), Demo.fs_saved)) by (vm_compute; reflexivity).
  split; [exact H1 |]. split; [exact H2 |].
  destruct (bundle_metadata_after_load Demo.denv Demo.calm Demo.first_clock Demo.fs_empty
              Demo.fs_saved Demo.trained (init (1 # 10) 50 7) Demo.bundle_path _
              H1 H2 eq_refl H3) as (y & checksum & Hl & _ & _ & Hc & Hcont & _).
  exists y, checksum. split; [exact Hl |]. split; [exact Hcont |]. split; [| exact Hc].
  vm_compute in Hl. injection Hl as <-. reflexivity.
Defined.

(** ** Saving and loading through [save] and [load] *)

Lemma save_model_Ok_files (E : detector_env) (env : save_env) (trained_at : string)
    (fs fs' : FS.t) (self : t) (path : string) :
  save_model E env trained_at fs self path = (Ok (), fs') ->
  exists checksum,
    _feature_checksum E (feature_names self) = Ok checksum /\
    FS.files fs'
    = <[path := joblib_dump (dump_layout env) (bundle self trained_at checksum)]>
        (FS.files fs) /\
    (path ∉ FS.dirs fs).
Proof.
  unfold save_model. intros H.
  destruct (FS.makedirs _ fs _) as [fs1 | e1] eqn:Hmk; [| discriminate H].
  pose proof (makedirs_files _ _ _ _ Hmk) as Hfiles1.
  assert (Hdirs1 : FS.dirs fs ⊆ FS.dirs fs1).
  { apply makedirs_Ok_inv in Hmk as (_ & _ & _ & ->). simpl. apply union_subseteq_r. }
  destruct (_feature_checksum E (feature_names self)) as [checksum | e2]; [| discriminate H].
  destruct (FS.mkstemp _ _ fs1 _ _ _) as [[tmp fs2] | e3] eqn:Htmp; [| discriminate H].
  destruct (mkstemp_fresh _ _ _ _ _ _ _ _ Htmp) as (Hfresh & -> & _).
  unfold FS.write in H.
  destruct (dump_fault env) as [[e4 [partial |]] |]; [discriminate H | discriminate H |].
  unfold FS.replace in H.
  destruct (replace_fault env); [discriminate H |]. simpl in H.
  rewrite lookup_insert_eq in H.
  destruct (bool_decide_reflect (path ∈ FS.dirs fs1)) as [Hin | Hnin]; [discriminate H |].
  injection H as <-. exists checksum. split; [reflexivity |]. simpl.
  split.
  - rewrite delete_insert_eq, delete_insert_eq, (delete_id _ _ Hfresh), Hfiles1. reflexivity.
  - intros Hin. apply Hnin, Hdirs1, Hin.
Qed.

Lemma mkdir_parents_Ok_inv (fs fs' : FS.t) (p : Path.t) :
  mkdir_parents fs p = Ok fs' ->
  FS.blocking fs (Path.to_string <$> (Path.ancestors p ++ [p])) = None /\
  fs' = FS.with_dirs fs (Path.to_string <$> (Path.ancestors p ++ [p])).
Proof.
  unfold mkdir_parents. cbv zeta.
  destruct (FS.blocking fs _) as [[a [| b rest]] |]; [discriminate | discriminate |].
  intros H. injection H as <-. auto.
Qed.

(** The path [_resolve_model_path] resolves to does not depend on the file
    system. *)
Lemma resolve_model_path_same (model_dir : Path.t) (fs fs0 fs1 : FS.t) (path : string)
    (b : bool) (resolved : Path.t) :
  let chain := Path.to_string <$> (Path.ancestors (Path.parent resolved)
                                     ++ [Path.parent resolved]) in
  _resolve_model_path model_dir fs path b = Ok (resolved, fs0) ->
  fs0 = FS.with_dirs fs chain /\
  Forall (fun a => FS.files fs !! a = None) chain /\
  (FS.exists_ fs1 (Path.to_string resolved) = true ->
   Forall (fun a => FS.files fs1 !! a = None) chain ->
   _resolve_model_path model_dir fs1 path true = Ok (resolved, FS.with_dirs fs1 chain)).
Proof.
  unfold _resolve_model_path. cbv zeta.
  set (r0 := if Path.is_absolute _ then _ else _). clearbody r0.
  intros H. destruct r0 as [r | e]; simpl in H; [| discriminate].
  destruct (b && _); [discriminate |]. bind_inv H. injection H as <- <-.
  apply mkdir_parents_Ok_inv in E as [Hb ->].
  split; [reflexivity |]. split; [apply blocking_None, Hb |].
  intros Hex Hp. simpl. rewrite Hex. simpl.
  unfold mkdir_parents. cbv zeta. rewrite (proj2 (blocking_None _ _) Hp). reflexivity.
Qed.

(** What [save] has written under a path, [load] finds under the same
    path: if a fitted detector is saved, then loading the same path, absolute
    or relative, returns normally and gives the loading detector the model,
    the scaler and the feature names that were saved; no file is changed by
    the load. *)
Theorem save_then_load (E : detector_env) (env : save_env) (trained_at : string)
    (model_dir : Path.t) (fs fs1 : FS.t) (x loader : t) (path written : string) :
  fitted x = true -> loadable x = true ->
  save E env trained_at model_dir fs x path = (Ok written, fs1) ->
  exists (y : t) (fs2 : FS.t),
    load model_dir fs1 loader path = (Ok (), y, fs2) /\
    model y = model x /\ scaler y = scaler x /\ feature_names y = feature_names x /\
    FS.files fs2 = FS.files fs1 /\
    is_Some (FS.files fs1 !! written).
Proof.
  intros Hfit Hsafe Hsave. unfold save in Hsave.
  destruct (_resolve_model_path model_dir fs path false) as [[resolved fs0] | e] eqn:Hres;
    [| discriminate].
  destruct (save_model E env trained_at fs0 x (Path.to_string resolved)) as [[[] | e] fs1']
    eqn:Hsm; [| discriminate].
  injection Hsave as <- <-.
  destruct (save_model_Ok_files _ _ _ _ _ _ _ Hsm) as (checksum & Hsum & Hfiles & Hnd).
  destruct (resolve_model_path_same _ _ _ fs1' _ _ _ Hres) as (Hfs0 & Hchain & Hagain).
  assert (Hat : FS.files fs1' !! Path.to_string resolved
                = Some (joblib_dump (dump_layout env) (bundle x trained_at checksum)))
    by (rewrite Hfiles; apply lookup_insert_eq).
  unfold load. rewrite Hagain.
  - set (fs2 := FS.with_dirs fs1' _).
    rewrite (load_dumped_bundle fs2 x loader _ _ trained_at checksum Hat Hfit Hsafe).
    eexists _, fs2. split; [reflexivity |]. simpl. repeat split; eauto.
  - apply (exists_of_file _ _ _ Hat).
  - rewrite Forall_forall in *. intros a Ha.
    rewrite Hfiles, lookup_insert_ne.
    + rewrite Hfs0. simpl. apply Hchain, Ha.
    + intros Heq. apply Hnd. rewrite Hfs0. simpl.
      apply elem_of_union_l, elem_of_list_to_set. rewrite Heq. exact Ha.
Qed.

Lemma save_then_load_witness :
  fitted Demo.trained = true /\ loadable Demo.trained = true /\
  exists fs1 y fs2,
    save Demo.denv Demo.calm Demo.first_clock Demo.model_dir Demo.fs_empty Demo.trained
         "nightly/model.pkl" = (Ok "/srv/models/nightly/model.pkl", fs1) /\
    load Demo.model_dir fs1 (init (1 # 10) 50 7) "nightly/model.pkl" = (Ok (), y, fs2) /\
    model y = Demo.forest.
Proof.
  assert (H1 : fitted Demo.trained = true) by reflexivity.
  assert (H2 : loadable Demo.trained = true) by (vm_compute; reflexivity).
  split; [exact H1 |]. split; [exact H2 |].
  eexists.
  assert (H3 : save Demo.denv Demo.calm Demo.first_clock Demo.model_dir Demo.fs_empty
                 Demo.trained "nightly/model.pkl"
               = (Ok "/srv/models/nightly/model.pkl",
                  snd (save Demo.denv Demo.calm Demo.first_clock Demo.model_dir Demo.fs_empty
                         Demo.trained "nightly/model.pkl")))
    by (vm_compute; reflexivity).
  destruct (save_then_load Demo.denv Demo.calm Demo.first_clock Demo.model_dir Demo.fs_empty
              _ Demo.trained (init (1 # 10) 50 7) "nightly/model.pkl" _ H1 H2 H3)
    as (y & fs2 & Hl & Hm & _).
  exists y, fs2. split; [exact H3 |]. split; [exact Hl | exact Hm].
Defined.

(** ** Relative paths that stay inside the model directory *)





End DetectorMoreFacts.
